(** * Rule-based audio noise classifier (main.py)

    A shallow embedding of [calculate_mfcc], [calculate_lsfm],
    [calculate_zcr], [classify_audio] and [process_audio_folder].

    - Samples and features are IEEE binary64 values ([PrimFloat.float]), so
      comparisons with NaN behave as they do in Python.  [np.sum] and
      [np.mean] add from the left; the order in which NumPy adds the
      elements of long arrays is not modelled.  The program is embedded
      for float64 buffers first, and then once more ([Typed]) with the
      sample format of the buffer, float32 or float64, as a parameter.
    - Python exceptions are values of [exn]; a computation that may raise
      returns [exn + A].
    - [print] and the calls into librosa are effects on an explicit [world]
      (the lines written to stdout and the log of library calls), threaded
      by a small state-and-exception monad [M].
    - librosa and the transcendental NumPy routines are not part of the
      program: they are interfaces ([Librosa], [Numerics]) over which the
      theorems quantify.  [LibrosaModel] gives one instance, written after
      librosa's documented behaviour, used to run the program on concrete
      buffers. *)

From Stdlib Require Import Ascii.
From Stdlib Require Import ZArith List String Bool Lia Floats.
From Stdlib Require Uint63.
Import ListNotations.

Local Open Scope string_scope.
Local Open Scope Z_scope.
Local Open Scope list_scope.

Set Warnings "-inexact-float".

(** ** Python values and effects *)

(** An exception: its class name and its message. *)
Inductive exn : Type :=
| Exception (cls : string) (msg : string).

Definition ValueError (msg : string) : exn := Exception "ValueError" msg.
Definition ParameterError (msg : string) : exn :=
  Exception "ParameterError" msg.

(** A call into librosa, with the arguments the program passes. *)
Inductive ext_call : Type :=
| Call_mfcc (y : list float) (sr : Z) (n_mfcc : Z)
| Call_frame (x : list float) (frame_length hop_length : Z)
| Call_zcr (y : list float) (frame_length hop_length : Z).

(** A line written by [print]; the formatted values are kept as data. *)
Inductive line : Type :=
| Warn_silent
| Err_mfcc (e : exn)
| Err_lsfm (e : exn)
| Err_zcr (e : exn)
| Show_mfcc (mfcc : list float)
| Show_lsfm (lsfm : float)
| Show_zcr (zcr : float).

Record world : Type := World { stdout : list line; calls : list ext_call }.

Definition world0 : world := World [] [].

(** [extend w out cs]: the world after writing [out] and calling [cs]. *)
Definition extend (w : world) (out : list line) (cs : list ext_call) : world :=
  World (stdout w ++ out) (calls w ++ cs).

(** The monad of the program: state [world], result or exception. *)
Definition M (A : Type) : Type := world -> world * (exn + A).

Definition ret {A} (a : A) : M A := fun w => (w, inr a).

Definition bind {A B} (m : M A) (k : A -> M B) : M B :=
  fun w => match m w with
           | (w', inr a) => k a w'
           | (w', inl e) => (w', inl e)
           end.

(** A pure computation that may raise. *)
Definition lift {A} (r : exn + A) : M A := fun w => (w, r).

(** [try: body / except Exception as e: handler e]. *)
Definition try_except {A} (body : M A) (handler : exn -> M A) : M A :=
  fun w => match body w with
           | (w', inr a) => (w', inr a)
           | (w', inl e) => handler e w'
           end.

Definition print (l : line) : M unit :=
  fun w => (extend w [l] [], inr tt).

(** A library call: logged on the world, then answered. *)
Definition call {A} (c : ext_call) (r : exn + A) : M A :=
  fun w => (extend w [] [c], r).

Declare Scope py_scope.
Delimit Scope py_scope with py.
Notation "x <- m ;; k" := (bind m (fun x => k))
  (at level 61, m at next level, right associativity) : py_scope.
Notation "m ;; k" := (bind m (fun _ => k))
  (at level 61, right associativity) : py_scope.
Local Open Scope py_scope.

(** The result of a computation started in the empty world. *)
Definition value {A} (m : M A) : exn + A := snd (m world0).

(** ** NumPy on one-dimensional float arrays *)

Module Np.

Local Open Scope float_scope.

Definition float_of_nat (n : nat) : float :=
  of_uint63 (Uint63.of_Z (Z.of_nat n)).

(** [np.sum]: the elements added from the left, starting at 0. *)
Definition sum (a : list float) : float := fold_left PrimFloat.add a 0.

(** [np.mean]: the sum divided by the number of elements (NaN when empty). *)
Definition mean (a : list float) : float :=
  sum a / float_of_nat (List.length a).

(** [np.mean(m, axis=1)] of a matrix given by its rows. *)
Definition mean_axis1 (m : list (list float)) : list float := map mean m.

(** [np.mean] of a whole matrix given by its rows. *)
Definition mean_all (m : list (list float)) : float := mean (List.concat m).

(** [np.abs], elementwise. *)
Definition abs (a : list float) : list float := map PrimFloat.abs a.

(** [np.maximum] on two scalars: NaN wins. *)
Definition maximum (a b : float) : float :=
  if (b <=? a) || is_nan a then a else b.

(** [np.max]: raises on an empty array. *)
Definition max (a : list float) : exn + float :=
  match a with
  | [] => inl (ValueError
      "zero-size array to reduction operation maximum which has no identity")
  | x :: xs => inr (fold_left maximum xs x)
  end.

(** [np.clip(x, lo, hi)] on a scalar: min(max(x, lo), hi), NaN kept. *)
Definition clip (x lo hi : float) : float :=
  let m := if is_nan x then x else if lo <? x then x else lo in
  if is_nan m then m else if m <? hi then m else hi.

(** [np.zeros(n)], an array of [n] float64 zeros, on a 64-bit build.  It
    raises on a negative length, on a length that does not fit the signed
    64-bit index type, and on a length whose 8-byte items would take more
    than the largest byte count of that type.  Below these limits the
    array is taken to be granted: whether the allocator of a given machine
    has the memory (a [MemoryError] otherwise) is not modelled. *)
Definition zeros (n : Z) : exn + list float :=
  if (n <? 0)%Z then inl (ValueError "negative dimensions are not allowed")
  else if (2 ^ 63 <=? n)%Z then
    inl (ValueError "Maximum allowed dimension exceeded")
  else if (2 ^ 63 <=? 8 * n)%Z then
    inl (ValueError "array is too big; `arr.size * arr.dtype.itemsize` is larger than the maximum possible size.")
  else inr (repeat 0%float (Z.to_nat n)).

End Np.

(** ** The external routines *)

(** The three librosa entry points the program calls.  A matrix is the list
    of its rows; [util_frame] answers with the frames ([frames.T]). *)
Class Librosa : Type := {
  feature_mfcc : list float -> Z -> Z -> exn + list (list float);
  util_frame : list float -> Z -> Z -> exn + list (list float);
  feature_zero_crossing_rate : list float -> Z -> Z -> exn + list (list float)
}.

(** [np.fft.fft] (complex numbers as pairs), [np.abs] on a complex number,
    [np.exp] and [np.log]. *)
Class Numerics : Type := {
  fft_fft : list float -> exn + list (float * float);
  abs_complex : float * float -> float;
  np_exp : float -> float;
  np_log : float -> float
}.

(** ** The program *)

Section Program.

Context {L : Librosa} {N : Numerics}.

Local Open Scope float_scope.

(** def calculate_mfcc(audio, sr, n_mfcc=13) *)
Definition calculate_mfcc (audio : list float) (sr : Z) (n_mfcc : Z)
  : M (list float) :=
  try_except
    (mfcc <- call (Call_mfcc audio sr n_mfcc) (feature_mfcc audio sr n_mfcc) ;;
     ret (Np.mean_axis1 mfcc))
    (fun e => print (Err_mfcc e) ;; lift (Np.zeros n_mfcc)).

(** [for frame in frames.T: ...], started with the list [lsfm] built so far;
    [continue] is the first branch. *)
Fixpoint lsfm_loop (frames : list (list float)) (lsfm : list float)
  : exn + list float :=
  match frames with
  | [] => inr lsfm
  | frame :: rest =>
      match fft_fft frame with
      | inl e => inl e
      | inr spectrum =>
          let fft_frame := map abs_complex spectrum in
          if Np.sum fft_frame <? 1e-10 then
            lsfm_loop rest (lsfm ++ [1.0])
          else
            let gm :=
              np_exp (Np.mean (map (fun m => np_log (m + 1e-10)) fft_frame)) in
            let am := Np.mean fft_frame in
            let sfm := gm / (am + 1e-10) in
            lsfm_loop rest (lsfm ++ [Np.clip sfm 0 1])
      end
  end.

(** def calculate_lsfm(audio, frame_length=2048, hop_length=512) *)
Definition calculate_lsfm (audio : list float) (frame_length hop_length : Z)
  : M float :=
  try_except
    (frames <- call (Call_frame audio frame_length hop_length)
                    (util_frame audio frame_length hop_length) ;;
     lsfm <- lift (lsfm_loop frames []) ;;
     ret (match lsfm with [] => 1.0 | _ :: _ => Np.mean lsfm end))
    (fun e => print (Err_lsfm e) ;; ret 1.0).

(** def calculate_zcr(audio, frame_length=2048, hop_length=512) *)
Definition calculate_zcr (audio : list float) (frame_length hop_length : Z)
  : M float :=
  try_except
    (zcr <- call (Call_zcr audio frame_length hop_length)
                 (feature_zero_crossing_rate audio frame_length hop_length) ;;
     ret (Np.mean_all zcr))
    (fun e => print (Err_zcr e) ;; ret 0.0).

(** The [if / elif / else] that ends [classify_audio]. *)
Definition threshold_label (lsfm zcr mfcc_energy : float) : string :=
  if (0.8 <? lsfm) && (0.3 <? zcr) && (mfcc_energy <? 50) then "Noise"
  else if ((0.3 <=? lsfm) && (lsfm <=? 0.8))
          && ((0.1 <=? zcr) && (zcr <=? 0.3))
          && ((50 <=? mfcc_energy) && (mfcc_energy <=? 150)) then "Semi-Noise"
  else "None Noise".

(** def classify_audio(audio, sr, frame_length=2048, hop_length=512) *)
Definition classify_audio (audio : list float) (sr : Z)
  (frame_length hop_length : Z) : M string :=
  peak <- lift (Np.max (Np.abs audio)) ;;
  if peak <? 1e-6 then
    print Warn_silent ;;
    ret "Noise"
  else
    mfcc <- calculate_mfcc audio sr 13 ;;
    lsfm <- calculate_lsfm audio frame_length hop_length ;;
    zcr <- calculate_zcr audio frame_length hop_length ;;
    print (Show_mfcc mfcc) ;;
    print (Show_lsfm lsfm) ;;
    print (Show_zcr zcr) ;;
    let mfcc_energy := Np.mean (Np.abs mfcc) in
    ret (threshold_label lsfm zcr mfcc_energy).

End Program.

(** ** The program on a buffer of a given sample format

    [classify_audio] is called on NumPy arrays of 64-bit or of 32-bit
    floats ([librosa.load] decodes to 32-bit floats), and NumPy computes in
    the format of its operands.  [Typed] embeds the program once more, with
    the format [dt] of the buffer as a parameter; at [Float64] it is the
    program above.  A float32 value is kept as the binary64 value equal to
    it, and a float32 operation is the binary64 operation followed by
    rounding to float32.  The formats follow NumPy 2 and librosa 0.10:
    - a Python literal that meets a NumPy value, in arithmetic or in a
      comparison, is first converted to the format of that value;
    - [np.sum], [np.exp], [np.log], [np.clip], [np.abs] and [np.max] keep
      the format of their argument; [np.mean] adds in the format of its
      argument, divides in binary64 and converts the quotient back;
    - [librosa.feature.mfcc], [librosa.util.frame] and
      [np.abs(np.fft.fft(frame))] answer in the format of the buffer,
      [librosa.feature.zero_crossing_rate] and [np.zeros] in float64;
    - [np.mean] of a Python list holding a Python float computes in
      float64, and in float32 when every element is a float32 value. *)

Inductive dtype : Type := Float32 | Float64.

Module Typed.

Local Open Scope float_scope.

(** The float32 value nearest to [x], ties to even; overflow gives an
    infinity. *)
Definition round32 (x : float) : float :=
  match Prim2SF x with
  | S754_finite s m e =>
      SF2Prim (binary_normalize 24 128 (cond_Zopp s (Z.pos m)) e s)
  | _ => x
  end.

(** Conversion of a binary64 value to the format [dt]. *)
Definition cast (dt : dtype) (x : float) : float :=
  match dt with
  | Float32 => round32 x
  | Float64 => x
  end.

(** A Python literal [c] as it meets a value of format [dt]. *)
Definition weak (dt : dtype) (c : float) : float := cast dt c.

(** A NumPy or Python scalar: its format and its value (a Python float is
    a float64 value). *)
Definition scalar : Type := (dtype * float)%type.

(** [x > c], [x < c], [c <= x], [x <= c] for a scalar [x] and a literal
    [c]. *)
Definition gt (x : scalar) (c : float) : bool := weak (fst x) c <? snd x.
Definition lt (x : scalar) (c : float) : bool := snd x <? weak (fst x) c.
Definition ge (x : scalar) (c : float) : bool := weak (fst x) c <=? snd x.
Definition le (x : scalar) (c : float) : bool := snd x <=? weak (fst x) c.

(** [np.sum] on an array of format [dt]: each partial sum is rounded to
    [dt]. *)
Definition sum (dt : dtype) (a : list float) : float :=
  fold_left (fun s x => cast dt (s + x)) a 0.

(** [np.mean] on an array of format [dt]. *)
Definition mean (dt : dtype) (a : list float) : float :=
  cast dt (sum dt a / Np.float_of_nat (List.length a)).

Definition mean_axis1 (dt : dtype) (m : list (list float)) : list float :=
  map (mean dt) m.

(** The format of the array NumPy builds from a Python list of scalars. *)
Definition is_float32 (dt : dtype) : bool :=
  match dt with Float32 => true | Float64 => false end.

Definition list_dtype (l : list scalar) : dtype :=
  match l with
  | [] => Float64
  | _ :: _ => if forallb (fun x => is_float32 (fst x)) l then Float32
              else Float64
  end.

(** [np.mean] of a Python list of scalars. *)
Definition mean_list (l : list scalar) : scalar :=
  (list_dtype l, mean (list_dtype l) (map snd l)).

(** A sample the silence gate counts as quiet in a buffer of format
    [dt]. *)
Definition quiet (dt : dtype) (x : float) : Prop :=
  (PrimFloat.abs x <? weak dt 1e-6) = true.

Section TypedProgram.

Context {L : Librosa} {N : Numerics}.

(** The format of the buffer [audio]. *)
Variable dt : dtype.

(** def calculate_mfcc(audio, sr, n_mfcc=13) *)
Definition calculate_mfcc (audio : list float) (sr : Z) (n_mfcc : Z)
  : M (dtype * list float) :=
  try_except
    (mfcc <- call (Call_mfcc audio sr n_mfcc) (feature_mfcc audio sr n_mfcc) ;;
     ret (dt, mean_axis1 dt mfcc))
    (fun e => print (Err_mfcc e) ;;
              zeros <- lift (Np.zeros n_mfcc) ;;
              ret (Float64, zeros)).

(** [for frame in frames.T: ...], started with the list [lsfm] built so
    far. *)
Fixpoint lsfm_loop (frames : list (list float)) (lsfm : list scalar)
  : exn + list scalar :=
  match frames with
  | [] => inr lsfm
  | frame :: rest =>
      match fft_fft frame with
      | inl e => inl e
      | inr spectrum =>
          let fft_frame := map abs_complex spectrum in
          if sum dt fft_frame <? weak dt 1e-10 then
            lsfm_loop rest (lsfm ++ [(Float64, 1.0)])
          else
            let gm :=
              np_exp (mean dt (map (fun m => np_log (cast dt (m + weak dt 1e-10)))
                                   fft_frame)) in
            let am := mean dt fft_frame in
            let sfm := cast dt (gm / cast dt (am + weak dt 1e-10)) in
            lsfm_loop rest (lsfm ++ [(dt, Np.clip sfm 0 1)])
      end
  end.

(** def calculate_lsfm(audio, frame_length=2048, hop_length=512) *)
Definition calculate_lsfm (audio : list float) (frame_length hop_length : Z)
  : M scalar :=
  try_except
    (frames <- call (Call_frame audio frame_length hop_length)
                    (util_frame audio frame_length hop_length) ;;
     lsfm <- lift (lsfm_loop frames []) ;;
     ret (match lsfm with
          | [] => (Float64, 1.0)
          | _ :: _ => mean_list lsfm
          end))
    (fun e => print (Err_lsfm e) ;; ret (Float64, 1.0)).

(** def calculate_zcr(audio, frame_length=2048, hop_length=512) *)
Definition calculate_zcr (audio : list float) (frame_length hop_length : Z)
  : M scalar :=
  try_except
    (zcr <- call (Call_zcr audio frame_length hop_length)
                 (feature_zero_crossing_rate audio frame_length hop_length) ;;
     ret (Float64, Np.mean_all zcr))
    (fun e => print (Err_zcr e) ;; ret (Float64, 0.0)).

(** The [if / elif / else] that ends [classify_audio]. *)
Definition threshold_label (lsfm zcr mfcc_energy : scalar) : string :=
  if gt lsfm 0.8 && gt zcr 0.3 && lt mfcc_energy 50 then "Noise"
  else if (ge lsfm 0.3 && le lsfm 0.8)
          && (ge zcr 0.1 && le zcr 0.3)
          && (ge mfcc_energy 50 && le mfcc_energy 150) then "Semi-Noise"
  else "None Noise".

(** def classify_audio(audio, sr, frame_length=2048, hop_length=512) *)
Definition classify_audio (audio : list float) (sr : Z)
  (frame_length hop_length : Z) : M string :=
  peak <- lift (Np.max (Np.abs audio)) ;;
  if peak <? weak dt 1e-6 then
    print Warn_silent ;;
    ret "Noise"
  else
    mfcc <- calculate_mfcc audio sr 13 ;;
    lsfm <- calculate_lsfm audio frame_length hop_length ;;
    zcr <- calculate_zcr audio frame_length hop_length ;;
    print (Show_mfcc (snd mfcc)) ;;
    print (Show_lsfm (snd lsfm)) ;;
    print (Show_zcr (snd zcr)) ;;
    let mfcc_energy := (fst mfcc, mean (fst mfcc) (Np.abs (snd mfcc))) in
    ret (threshold_label lsfm zcr mfcc_energy).

End TypedProgram.

End Typed.

(** ** A model of the librosa routines

    Written after librosa's documented behaviour (0.10): [util.valid_audio],
    [util.frame], and [feature.zero_crossing_rate] with its defaults
    [center=True] (edge padding by [frame_length // 2] on both sides),
    [pad=False], [threshold=1e-10], [zero_pos=True].  The MFCC transform
    itself is left to a parameter [core]; what is modelled of
    [feature.mfcc] is the validity check it starts with. *)

Module LibrosaModel.

Local Open Scope float_scope.

(** [util.valid_audio]: every sample must be finite. *)
Definition valid_audio (y : list float) : exn + unit :=
  if forallb is_finite y then inr tt
  else inl (ParameterError "Audio buffer is not finite everywhere").

(** [count] frames of [fl] samples, each [hop] samples after the last. *)
Fixpoint frames_from (x : list float) (fl hop count : nat)
  : list (list float) :=
  match count with
  | O => []
  | S c => firstn fl x :: frames_from (skipn hop x) fl hop c
  end.

(** [util.frame(x, frame_length=.., hop_length=..)], as [frames.T]. *)
Definition frame (x : list float) (frame_length hop_length : Z)
  : exn + list (list float) :=
  let n := Z.of_nat (List.length x) in
  if (n <? frame_length)%Z then inl (ParameterError "Input is too short")
  else if (hop_length <? 1)%Z then inl (ParameterError "Invalid hop_length")
  else if (frame_length <? 0)%Z then
    inl (ValueError "negative dimensions are not allowed")
  else
    let n_frames := (1 + (n - frame_length) / hop_length)%Z in
    inr (frames_from x (Z.to_nat frame_length) (Z.to_nat hop_length)
           (Z.to_nat n_frames)).

(** [np.pad(y, (k, k), mode="edge")] on a non-empty array. *)
Definition pad_edge (y : list float) (k : nat) : list float :=
  repeat (hd 0 y) k ++ y ++ repeat (last y 0) k.

(** The sign bit of a sample once magnitudes up to the threshold are
    set to zero. *)
Definition zc_sign (x : float) : bool :=
  if (-1e-10 <=? x) && (x <=? 1e-10) then false else x <? 0.

Fixpoint crossings_from (prev : bool) (xs : list float) : list bool :=
  match xs with
  | [] => []
  | x :: rest => xorb prev (zc_sign x) :: crossings_from (zc_sign x) rest
  end.

(** [zero_crossings(frame, pad=False)]. *)
Definition zero_crossings (frame : list float) : list bool :=
  match frame with
  | [] => []
  | x :: rest => false :: crossings_from (zc_sign x) rest
  end.

Definition float_of_bool (b : bool) : float := if b then 1 else 0.

(** The fraction of crossings in one frame. *)
Definition frame_rate (frame : list float) : float :=
  Np.mean (map float_of_bool (zero_crossings frame)).

(** [feature.zero_crossing_rate(y, frame_length=.., hop_length=..)]:
    a matrix with one row. *)
Definition zero_crossing_rate (y : list float) (frame_length hop_length : Z)
  : exn + list (list float) :=
  match valid_audio y with
  | inl e => inl e
  | inr _ =>
      let k := (frame_length / 2)%Z in
      if (frame_length <? 0)%Z then
        inl (ValueError "index can't contain negative values")
      else if (match y with [] => true | _ :: _ => false end) && (0 <? k)%Z
      then inl (ValueError "can't extend empty axis 0")
      else
        match frame (pad_edge y (Z.to_nat k)) frame_length hop_length with
        | inl e => inl e
        | inr frames =>
            if (frame_length =? 0)%Z then
              inl (Exception "IndexError" "index 0 is out of bounds")
            else inr [map frame_rate frames]
        end
  end.

(** [feature.mfcc(y=.., sr=.., n_mfcc=..)]: the validity check, then the
    transform [core]. *)
Definition mfcc (core : list float -> Z -> Z -> exn + list (list float))
  (y : list float) (sr n_mfcc : Z) : exn + list (list float) :=
  match valid_audio y with
  | inl e => inl e
  | inr _ => core y sr n_mfcc
  end.

Definition librosa (core : list float -> Z -> Z -> exn + list (list float))
  : Librosa :=
  {| feature_mfcc := mfcc core;
     util_frame := frame;
     feature_zero_crossing_rate := zero_crossing_rate |}.

(** A transform that is not available: every call raises. *)
Definition no_core (y : list float) (sr n_mfcc : Z)
  : exn + list (list float) :=
  inl (Exception "NotImplementedError" "mfcc").

(** The DFT of frames of one or two samples, where it needs no
    trigonometry: X = [x] and X = [x + y, x - y]. *)
Definition small_fft (frame : list float) : exn + list (float * float) :=
  match frame with
  | [] => inl (ValueError "Invalid number of FFT data points (0) specified.")
  | [x] => inr [(x, 0)]
  | [x; y] => inr [(x + y, 0); (x - y, 0)]
  | _ => inl (Exception "NotImplementedError" "fft")
  end.

(** Numerics for short frames.  [np_exp] and [np_log] are not available
    here and answer NaN: the closed runs below only meet frames whose
    spectrum sums to less than 1e-10, where the program calls neither. *)
Definition small_numerics : Numerics :=
  {| fft_fft := small_fft;
     abs_complex := fun z => sqrt (fst z * fst z + snd z * snd z);
     np_exp := fun _ => nan;
     np_log := fun _ => nan |}.

End LibrosaModel.

(** The librosa model with no MFCC transform, and the short-frame
    numerics. *)
Definition L0 : Librosa := LibrosaModel.librosa LibrosaModel.no_core.
Definition N0 : Numerics := LibrosaModel.small_numerics.

(** ** The specification's vocabulary *)

Section Specification.

Context {L : Librosa} {N : Numerics}.

Local Open Scope float_scope.

(** Flatness of one frame from its magnitude spectrum: 1 when the
    magnitudes sum to less than 1e-10, otherwise the geometric mean of
    (magnitude + 1e-10) over (the arithmetic mean of magnitude + 1e-10),
    clamped to [0, 1]. *)
Definition geometric_mean (magnitude : list float) : float :=
  np_exp (Np.mean (map (fun m => np_log (m + 1e-10)) magnitude)).

Definition spectral_flatness (magnitude : list float) : float :=
  if Np.sum magnitude <? 1e-10 then 1
  else Np.clip (geometric_mean magnitude / (Np.mean magnitude + 1e-10)) 0 1.

(** The two threshold rules. *)
Definition rule_noise (lsfm zcr mfcc_energy : float) : Prop :=
  (0.8 <? lsfm) = true /\ (0.3 <? zcr) = true /\ (mfcc_energy <? 50) = true.

Definition rule_semi_noise (lsfm zcr mfcc_energy : float) : Prop :=
  ((0.3 <=? lsfm) = true /\ (lsfm <=? 0.8) = true) /\
  ((0.1 <=? zcr) = true /\ (zcr <=? 0.3) = true) /\
  ((50 <=? mfcc_energy) = true /\ (mfcc_energy <=? 150) = true).

(** First match wins: rule 1, otherwise rule 2, otherwise the catch-all. *)
Inductive cascade (lsfm zcr mfcc_energy : float) : string -> Prop :=
| cascade_noise :
    rule_noise lsfm zcr mfcc_energy ->
    cascade lsfm zcr mfcc_energy "Noise"
| cascade_semi_noise :
    ~ rule_noise lsfm zcr mfcc_energy ->
    rule_semi_noise lsfm zcr mfcc_energy ->
    cascade lsfm zcr mfcc_energy "Semi-Noise"
| cascade_catch_all :
    ~ rule_noise lsfm zcr mfcc_energy ->
    ~ rule_semi_noise lsfm zcr mfcc_energy ->
    cascade lsfm zcr mfcc_energy "None Noise".

(** The labels as the specification spells them, and as the program does. *)
Definition spec_labels : list string := ["Noise"; "Semi-Noise"; "None-Noise"].
Definition code_labels : list string := ["Noise"; "Semi-Noise"; "None Noise"].

(** The configuration the specification lists as recognized options. *)
Record Config : Type := {
  cfg_n_mfcc : Z;
  cfg_frame_length : Z;
  cfg_hop_length : Z;
  cfg_silence : float;
  cfg_lsfm_lo : float;
  cfg_lsfm_hi : float;
  cfg_zcr_lo : float;
  cfg_zcr_hi : float;
  cfg_energy_lo : float;
  cfg_energy_hi : float
}.

Definition default_config : Config :=
  {| cfg_n_mfcc := 13; cfg_frame_length := 2048; cfg_hop_length := 512;
     cfg_silence := 1e-6;
     cfg_lsfm_lo := 0.3; cfg_lsfm_hi := 0.8;
     cfg_zcr_lo := 0.1; cfg_zcr_hi := 0.3;
     cfg_energy_lo := 50; cfg_energy_hi := 150 |}.

(** The classifier of the specification, in which every option of the
    configuration is read from [c]. *)
Definition classify_configured (c : Config) (audio : list float) (sr : Z)
  : M string :=
  peak <- lift (Np.max (Np.abs audio)) ;;
  if peak <? cfg_silence c then
    print Warn_silent ;;
    ret "Noise"
  else
    mfcc <- calculate_mfcc audio sr (cfg_n_mfcc c) ;;
    lsfm <- calculate_lsfm audio (cfg_frame_length c) (cfg_hop_length c) ;;
    zcr <- calculate_zcr audio (cfg_frame_length c) (cfg_hop_length c) ;;
    print (Show_mfcc mfcc) ;;
    print (Show_lsfm lsfm) ;;
    print (Show_zcr zcr) ;;
    let mfcc_energy := Np.mean (Np.abs mfcc) in
    ret (if (cfg_lsfm_hi c <? lsfm) && (cfg_zcr_hi c <? zcr)
            && (mfcc_energy <? cfg_energy_lo c) then "Noise"
         else if ((cfg_lsfm_lo c <=? lsfm) && (lsfm <=? cfg_lsfm_hi c))
                 && ((cfg_zcr_lo c <=? zcr) && (zcr <=? cfg_zcr_hi c))
                 && ((cfg_energy_lo c <=? mfcc_energy)
                     && (mfcc_energy <=? cfg_energy_hi c)) then "Semi-Noise"
         else "None Noise").

(** What the program relies on in the matrix of per-frame rates that
    librosa answers: it has an entry, its size fits a machine index, and
    no entry is negative or NaN. *)
Definition rates_ok (zcr : list (list float)) : Prop :=
  List.concat zcr <> [] /\
  (Z.of_nat (List.length (List.concat zcr)) < 2 ^ 63)%Z /\
  Forall (fun r => (0 <=? r) = true) (List.concat zcr).

(** The configuration that a call [classify_audio(audio, sr, frame_length,
    hop_length)] can reach. *)
Definition interface_config (frame_length hop_length : Z) : Config :=
  {| cfg_n_mfcc := 13;
     cfg_frame_length := frame_length; cfg_hop_length := hop_length;
     cfg_silence := 1e-6;
     cfg_lsfm_lo := 0.3; cfg_lsfm_hi := 0.8;
     cfg_zcr_lo := 0.1; cfg_zcr_hi := 0.3;
     cfg_energy_lo := 50; cfg_energy_hi := 150 |}.

(** The default configuration asking for 20 coefficients. *)
Definition config_20_coefficients : Config :=
  {| cfg_n_mfcc := 20; cfg_frame_length := 2048; cfg_hop_length := 512;
     cfg_silence := 1e-6;
     cfg_lsfm_lo := 0.3; cfg_lsfm_hi := 0.8;
     cfg_zcr_lo := 0.1; cfg_zcr_hi := 0.3;
     cfg_energy_lo := 50; cfg_energy_hi := 150 |}.

(** A computation is steady when what it writes, calls and returns does
    not depend on the world it starts in. *)
Definition steady {A} (m : M A) : Prop :=
  exists out cs r, forall w, m w = (extend w out cs, r).

End Specification.

(** ** The batch runner: values and effects *)

(** A file name is the string of its bytes.  [lower] is [str.lower] on the
    ASCII letters and keeps every other byte; Python also lowers letters
    outside ASCII, none of them to a character of the three suffixes
    below, so [is_supported] decides as the program does. *)
Definition lower_ascii (c : ascii) : ascii :=
  let n := nat_of_ascii c in
  if (65 <=? n)%nat && (n <=? 90)%nat then ascii_of_nat (n + 32) else c.

Fixpoint lower (s : string) : string :=
  match s with
  | EmptyString => EmptyString
  | String c rest => String (lower_ascii c) (lower rest)
  end.

(** [s[n:]]. *)
Fixpoint drop (n : nat) (s : string) : string :=
  match n, s with
  | O, _ => s
  | S _, EmptyString => EmptyString
  | S k, String _ rest => drop k rest
  end.

(** [s.endswith(suffix)] for one suffix. *)
Definition endswith (s suffix : string) : bool :=
  (String.length suffix <=? String.length s)%nat &&
  String.eqb (drop (String.length s - String.length suffix) s) suffix.

Definition supported_formats : list string := [".wav"; ".mp3"; ".flac"].

(** [filename.lower().endswith(supported_formats)]. *)
Definition is_supported (filename : string) : bool :=
  existsb (endswith (lower filename)) supported_formats.


(** A call the batch runner makes: into the file system, into the decoder,
    or (through [classify_audio]) into librosa. *)
Inductive batch_call : Type :=
| Os_exists (path : string)
| Os_listdir (path : string)
| Load (path : string)
| Lib (c : ext_call).

(** A line the batch runner writes; [Core] is a line of [classify_audio]. *)
Inductive batch_line : Type :=
| Missing_folder (path : string)
| Processing (filename : string)
| Classified (label : string)
| File_error (filename : string) (e : exn)
| Skipped (filename : string)
| Core (l : line).

Record batch_world : Type :=
  BatchWorld { console : list batch_line; trace : list batch_call }.

Definition batch_world0 : batch_world := BatchWorld [] [].

Definition bextend (w : batch_world) (out : list batch_line)
  (cs : list batch_call) : batch_world :=
  BatchWorld (console w ++ out) (trace w ++ cs).

(** The monad of the batch runner. *)
Definition B (A : Type) : Type := batch_world -> batch_world * (exn + A).

Definition bret {A} (a : A) : B A := fun w => (w, inr a).

Definition bbind {A C} (m : B A) (k : A -> B C) : B C :=
  fun w => match m w with
           | (w', inr a) => k a w'
           | (w', inl e) => (w', inl e)
           end.

Definition btry {A} (body : B A) (handler : exn -> B A) : B A :=
  fun w => match body w with
           | (w', inr a) => (w', inr a)
           | (w', inl e) => handler e w'
           end.

Definition bprint (l : batch_line) : B unit :=
  fun w => (bextend w [l] [], inr tt).

Definition bcall {A} (c : batch_call) (r : exn + A) : B A :=
  fun w => (bextend w [] [c], r).

(** A computation of [classify_audio]'s monad, run inside the batch
    runner: its lines and calls are appended to the console and the
    trace. *)
Definition run_core {A} (m : M A) : B A :=
  fun w => let (w', r) := m world0 in
           (bextend w (map Core (stdout w')) (map Lib (calls w')), r).

Declare Scope batch_scope.
Delimit Scope batch_scope with batch.
Notation "x <- m ;; k" := (bbind m (fun x => k))
  (at level 61, m at next level, right associativity) : batch_scope.
Notation "m ;; k" := (bbind m (fun _ => k))
  (at level 61, right associativity) : batch_scope.

(** [os.path.exists], [os.listdir] and [os.path.join]. *)
Class FileSystem : Type := {
  path_exists : string -> bool;
  listdir : string -> exn + list string;
  path_join : string -> string -> string
}.

(** [librosa.load(path, sr=None)]: the samples and the native rate. *)
Class Loader : Type := {
  librosa_load : string -> exn + (list float * Z)
}.

Section Batch.

Context {L : Librosa} {N : Numerics} {F : FileSystem} {D : Loader}.

Local Open Scope batch_scope.

(** The body of [for filename in os.listdir(folder_path)]. *)
Definition process_file (folder_path filename : string) : B unit :=
  if is_supported filename then
    let file_path := path_join folder_path filename in
    bprint (Processing filename) ;;
    btry
      (loaded <- bcall (Load file_path) (librosa_load file_path) ;;
       let (audio, sr) := loaded : list float * Z in
       result <- run_core (classify_audio audio sr 2048 512) ;;
       bprint (Classified result))
      (fun e => bprint (File_error filename e))
  else
    bprint (Skipped filename).

Fixpoint process_files (folder_path : string) (filenames : list string)
  : B unit :=
  match filenames with
  | [] => bret tt
  | filename :: rest =>
      process_file folder_path filename ;;
      process_files folder_path rest
  end.

(** def process_audio_folder(folder_path) *)
Definition process_audio_folder (folder_path : string) : B unit :=
  present <- bcall (Os_exists folder_path) (inr (path_exists folder_path)) ;;
  if negb present then
    bprint (Missing_folder folder_path)
  else
    filenames <- bcall (Os_listdir folder_path) (listdir folder_path) ;;
    process_files folder_path filenames.

(** if __name__ == "__main__" *)
Definition main : B unit := process_audio_folder "audios".

End Batch.

(** [posixpath.join] of two components. *)
Definition posix_join (a b : string) : string :=
  if String.prefix "/" b then b
  else if (String.eqb a "") || endswith a "/" then (a ++ b)%string
  else (a ++ "/" ++ b)%string.

(** A folder ["audios"] with four entries, and what the decoder makes of
    them: a quiet clip, an entry that is no audio file, a file the decoder
    rejects, and a file that decodes to no sample. *)
Definition FS0 : FileSystem :=
  {| path_exists := fun p => String.eqb p "audios";
     listdir := fun p =>
       if String.eqb p "audios"
       then inr ["quiet.wav"; "notes.txt"; "BROKEN.MP3"; "empty.flac"]
       else inl (Exception "FileNotFoundError" p);
     path_join := posix_join |}.

Definition D0 : Loader :=
  {| librosa_load := fun p =>
       if String.eqb p "audios/quiet.wav" then inr (repeat 0%float 4, 16000)
       else if String.eqb p "audios/empty.flac" then inr ([], 44100)
       else inl (Exception "NoBackendError" p) |}.


(** ** The batch runner: what one file adds *)

Section BatchReports.

Context {L : Librosa} {N : Numerics} {F : FileSystem} {D : Loader}.

(** The line that closes the processing of a supported file. *)
Definition file_outcome (folder_path filename : string) : batch_line :=
  match librosa_load (path_join folder_path filename) with
  | inl e => File_error filename e
  | inr (audio, sr) =>
      match value (classify_audio audio sr 2048 512) with
      | inl e => File_error filename e
      | inr label => Classified label
      end
  end.

(** The lines and the calls that one entry of the folder adds. *)
Definition file_report (folder_path filename : string)
  : list batch_line * list batch_call :=
  if is_supported filename then
    let file_path := path_join folder_path filename in
    match librosa_load file_path with
    | inl e => ([Processing filename; File_error filename e], [Load file_path])
    | inr (audio, sr) =>
        let w := fst (classify_audio audio sr 2048 512 world0) in
        (Processing filename :: map Core (stdout w)
           ++ [file_outcome folder_path filename],
         Load file_path :: map Lib (calls w))
    end
  else ([Skipped filename], []).

End BatchReports.

Definition is_header (l : batch_line) : bool :=
  match l with
  | Processing _ | Skipped _ => true
  | _ => false
  end.

Definition is_outcome (l : batch_line) : bool :=
  match l with
  | Classified _ | File_error _ _ => true
  | _ => false
  end.

Definition is_load (c : batch_call) : bool :=
  match c with
  | Load _ => true
  | _ => false
  end.

(** The header line of an entry. *)
Definition header (filename : string) : batch_line :=
  if is_supported filename then Processing filename else Skipped filename.

(** [s[:n]]. *)
Fixpoint take (n : nat) (s : string) : string :=
  match n, s with
  | O, _ => EmptyString
  | S _, EmptyString => EmptyString
  | S k, String c rest => String c (take k rest)
  end.

(** ** Signs of binary64 values

    Predicates on the specification floats ([SpecFloat]) used to show that
    sums and means of non-negative values are non-negative. *)

Definition SFnonneg (x : spec_float) : bool :=
  match x with
  | S754_zero _ => true
  | S754_infinity s => negb s
  | S754_nan => false
  | S754_finite s _ _ => negb s
  end.

Definition SFpositive_finite (x : spec_float) : bool :=
  match x with
  | S754_finite false _ _ => true
  | _ => false
  end.

(** [fexp] of binary64, unfolded. *)
Definition fexp64 (e : Z) : Z := Z.max (e - 53) (-1074).

(** A rounded value carries the sign it was given, unless it is NaN; it
    is never NaN when the mantissa is not negative. *)
Definition SFsigned (sx : bool) (x : spec_float) : Prop :=
  x = S754_zero sx \/ x = S754_infinity sx \/
  exists m e, x = S754_finite sx m e.

(** ** The monad's laws of motion *)

Lemma extend_nil (w : world) : extend w [] [] = w.
Proof. destruct w; unfold extend; simpl; now rewrite !app_nil_r. Qed.

Lemma extend_extend (w : world) o1 c1 o2 c2 :
  extend (extend w o1 c1) o2 c2 = extend w (o1 ++ o2) (c1 ++ c2).
Proof. unfold extend; simpl; now rewrite !app_assoc. Qed.

Lemma steady_ret {A} (a : A) : steady (ret a).
Proof. exists [], [], (inr a); intro w; unfold ret; now rewrite extend_nil. Qed.

Lemma steady_lift {A} (r : exn + A) : steady (lift r).
Proof. exists [], [], r; intro w; unfold lift; now rewrite extend_nil. Qed.

Lemma steady_print (l : line) : steady (print l).
Proof. now exists [l], [], (inr tt). Qed.

Lemma steady_call {A} (c : ext_call) (r : exn + A) : steady (call c r).
Proof. now exists [], [c], r. Qed.

Lemma steady_bind {A B} (m : M A) (k : A -> M B) :
  steady m -> (forall a, steady (k a)) -> steady (bind m k).
Proof.
  intros (out & cs & r & Hm) Hk.
  destruct r as [e | a].
  - exists out, cs, (inl e); intro w; unfold bind; now rewrite Hm.
  - destruct (Hk a) as (out' & cs' & r' & Hka).
    exists (out ++ out'), (cs ++ cs'), r'; intro w.
    unfold bind; now rewrite Hm, Hka, extend_extend.
Qed.

Lemma steady_try_except {A} (body : M A) (handler : exn -> M A) :
  steady body -> (forall e, steady (handler e)) ->
  steady (try_except body handler).
Proof.
  intros (out & cs & r & Hb) Hh.
  destruct r as [e | a].
  - destruct (Hh e) as (out' & cs' & r' & He).
    exists (out ++ out'), (cs ++ cs'), r'; intro w.
    unfold try_except; now rewrite Hb, He, extend_extend.
  - exists out, cs, (inr a); intro w; unfold try_except; now rewrite Hb.
Qed.

Lemma steady_value {A} (m : M A) :
  steady m -> forall w, snd (m w) = value m.
Proof.
  intros (out & cs & r & Hm) w; unfold value; now rewrite !Hm.
Qed.

Create HintDb steady.
#[local] Hint Resolve steady_ret steady_lift steady_print steady_call : steady.

Ltac steady_tac :=
  repeat first
    [ apply steady_try_except | apply steady_bind | intro
    | solve [auto with steady] ].

(** ** One run of each feature computation *)

Section Runs.

Context {L : Librosa} {N : Numerics}.

Local Open Scope float_scope.

Lemma calculate_mfcc_run audio sr n_mfcc w :
  calculate_mfcc audio sr n_mfcc w =
  match feature_mfcc audio sr n_mfcc with
  | inr mfcc =>
      (extend w [] [Call_mfcc audio sr n_mfcc], inr (Np.mean_axis1 mfcc))
  | inl e =>
      (extend w [Err_mfcc e] [Call_mfcc audio sr n_mfcc], Np.zeros n_mfcc)
  end.
Proof.
  unfold calculate_mfcc, try_except, bind, call, ret, print, lift.
  destruct (feature_mfcc audio sr n_mfcc); simpl; now rewrite ?extend_extend.
Qed.

Lemma calculate_lsfm_run audio frame_length hop_length w :
  calculate_lsfm audio frame_length hop_length w =
  let c := Call_frame audio frame_length hop_length in
  match util_frame audio frame_length hop_length with
  | inl e => (extend w [Err_lsfm e] [c], inr 1)
  | inr frames =>
      match lsfm_loop frames [] with
      | inl e => (extend w [Err_lsfm e] [c], inr 1)
      | inr [] => (extend w [] [c], inr 1)
      | inr (x :: l) => (extend w [] [c], inr (Np.mean (x :: l)))
      end
  end.
Proof.
  unfold calculate_lsfm, try_except, bind, call, ret, print, lift.
  destruct (util_frame audio frame_length hop_length) as [e | frames]; simpl.
  - now rewrite extend_extend.
  - destruct (lsfm_loop frames []) as [e | [ | x l]]; simpl;
      now rewrite ?extend_extend.
Qed.

Lemma calculate_zcr_run audio frame_length hop_length w :
  calculate_zcr audio frame_length hop_length w =
  let c := Call_zcr audio frame_length hop_length in
  match feature_zero_crossing_rate audio frame_length hop_length with
  | inr zcr => (extend w [] [c], inr (Np.mean_all zcr))
  | inl e => (extend w [Err_zcr e] [c], inr 0)
  end.
Proof.
  unfold calculate_zcr, try_except, bind, call, ret, print, lift.
  destruct (feature_zero_crossing_rate audio frame_length hop_length); simpl;
    now rewrite ?extend_extend.
Qed.

Lemma calculate_mfcc_steady audio sr n_mfcc :
  steady (calculate_mfcc audio sr n_mfcc).
Proof. unfold calculate_mfcc; steady_tac. Qed.

Lemma calculate_lsfm_steady audio frame_length hop_length :
  steady (calculate_lsfm audio frame_length hop_length).
Proof. unfold calculate_lsfm; steady_tac. Qed.

Lemma calculate_zcr_steady audio frame_length hop_length :
  steady (calculate_zcr audio frame_length hop_length).
Proof. unfold calculate_zcr; steady_tac. Qed.

Lemma classify_audio_steady audio sr frame_length hop_length :
  steady (classify_audio audio sr frame_length hop_length).
Proof.
  unfold classify_audio.
  apply steady_bind; [ auto with steady | intro peak ].
  destruct (peak <? 1e-6).
  - steady_tac.
  - repeat (apply steady_bind;
            [ first [ apply calculate_mfcc_steady | apply calculate_lsfm_steady
                    | apply calculate_zcr_steady | auto with steady ]
            | intro ]).
    auto with steady.
Qed.

(** [calculate_lsfm] and [calculate_zcr] always return; [calculate_mfcc]
    does when [np.zeros] can build its fallback. *)
Lemma calculate_lsfm_returns audio frame_length hop_length :
  exists lsfm, value (calculate_lsfm audio frame_length hop_length) = inr lsfm.
Proof.
  unfold value; rewrite calculate_lsfm_run; cbv zeta.
  destruct (util_frame audio frame_length hop_length) as [e | frames];
    [ now eexists | ].
  destruct (lsfm_loop frames []) as [e | [ | x l]]; now eexists.
Qed.

Lemma calculate_zcr_returns audio frame_length hop_length :
  exists zcr, value (calculate_zcr audio frame_length hop_length) = inr zcr.
Proof.
  unfold value; rewrite calculate_zcr_run; cbv zeta.
  destruct (feature_zero_crossing_rate audio frame_length hop_length);
    now eexists.
Qed.

(** [np.zeros] answers an array exactly within its limits, and then the
    array of that many zeros. *)
Lemma zeros_cases n :
  ((0 <= n < 2 ^ 60)%Z /\ Np.zeros n = inr (repeat 0 (Z.to_nat n))) \/
  ((n < 0 \/ 2 ^ 60 <= n)%Z /\ exists e, Np.zeros n = inl e).
Proof.
  unfold Np.zeros.
  destruct (Z.ltb_spec n 0); [ right; split; [ lia | now eexists ] | ].
  destruct (Z.leb_spec (2 ^ 63) n); [ right; split; [ lia | now eexists ] | ].
  destruct (Z.leb_spec (2 ^ 63) (8 * n));
    [ right; split; [ lia | now eexists ] | left; split; [ lia | reflexivity ] ].
Qed.

Lemma zeros_returns n :
  (0 <= n < 2 ^ 60)%Z -> Np.zeros n = inr (repeat 0 (Z.to_nat n)).
Proof.
  intro Hn; destruct (zeros_cases n) as [[_ H] | [H _]]; [ exact H | lia ].
Qed.

Lemma zeros_inr n zs :
  Np.zeros n = inr zs ->
  (0 <= n < 2 ^ 60)%Z /\ zs = repeat 0%float (Z.to_nat n).
Proof.
  intro H; destruct (zeros_cases n) as [[Hn E] | [_ [e E]]];
    rewrite E in H; [ | discriminate ].
  split; [ exact Hn | congruence ].
Qed.

Lemma calculate_mfcc_returns audio sr n_mfcc :
  (0 <= n_mfcc < 2 ^ 60)%Z ->
  exists mfcc, value (calculate_mfcc audio sr n_mfcc) = inr mfcc.
Proof.
  intro Hn; unfold value; rewrite calculate_mfcc_run.
  destruct (feature_mfcc audio sr n_mfcc); simpl; [ | now eexists ].
  rewrite zeros_returns by assumption; now eexists.
Qed.

(** Past the silence gate, one run of [classify_audio] in terms of the
    three feature values. *)
Lemma classify_audio_run audio sr frame_length hop_length peak mfcc lsfm zcr w :
  Np.max (Np.abs audio) = inr peak ->
  (peak <? 1e-6) = false ->
  value (calculate_mfcc audio sr 13) = inr mfcc ->
  value (calculate_lsfm audio frame_length hop_length) = inr lsfm ->
  value (calculate_zcr audio frame_length hop_length) = inr zcr ->
  exists w',
    classify_audio audio sr frame_length hop_length w =
    (w', inr (threshold_label lsfm zcr (Np.mean (Np.abs mfcc)))).
Proof.
  intros Hmax Hgate Hm Hl Hz.
  unfold classify_audio, bind at 1, lift.
  rewrite Hmax, Hgate.
  pose proof (steady_value _ (calculate_mfcc_steady audio sr 13)) as Sm.
  pose proof (steady_value _
    (calculate_lsfm_steady audio frame_length hop_length)) as Sl.
  pose proof (steady_value _
    (calculate_zcr_steady audio frame_length hop_length)) as Sz.
  unfold bind at 1.
  specialize (Sm w); rewrite Hm in Sm.
  destruct (calculate_mfcc audio sr 13 w) as [w1 r1]; simpl in Sm; subst r1.
  unfold bind at 1.
  specialize (Sl w1); rewrite Hl in Sl.
  destruct (calculate_lsfm audio frame_length hop_length w1) as [w2 r2];
    simpl in Sl; subst r2.
  unfold bind at 1.
  specialize (Sz w2); rewrite Hz in Sz.
  destruct (calculate_zcr audio frame_length hop_length w2) as [w3 r3];
    simpl in Sz; subst r3.
  unfold bind, print, ret; simpl.
  now eexists.
Qed.

End Runs.

(** ** The decision cascade *)

Section Cascade.

Context {L : Librosa} {N : Numerics}.

Local Open Scope float_scope.

Lemma rule_noise_guard l z e :
  rule_noise l z e <-> ((0.8 <? l) && (0.3 <? z) && (e <? 50)) = true.
Proof. unfold rule_noise; rewrite !andb_true_iff; tauto. Qed.

Lemma rule_semi_noise_guard l z e :
  rule_semi_noise l z e <->
  (((0.3 <=? l) && (l <=? 0.8)) && ((0.1 <=? z) && (z <=? 0.3))
   && ((50 <=? e) && (e <=? 150))) = true.
Proof. unfold rule_semi_noise; rewrite !andb_true_iff; tauto. Qed.

(** The program's [if / elif / else] is the first-match-wins cascade. *)
Lemma threshold_label_cascade l z e : cascade l z e (threshold_label l z e).
Proof.
  unfold threshold_label.
  destruct ((0.8 <? l) && (0.3 <? z) && (e <? 50)) eqn:G1.
  - apply cascade_noise; now apply rule_noise_guard.
  - assert (~ rule_noise l z e) as H1
      by (rewrite rule_noise_guard; congruence).
    destruct (((0.3 <=? l) && (l <=? 0.8)) && ((0.1 <=? z) && (z <=? 0.3))
              && ((50 <=? e) && (e <=? 150))) eqn:G2.
    + apply cascade_semi_noise; [ exact H1 | now apply rule_semi_noise_guard ].
    + apply cascade_catch_all; [ exact H1 | ].
      rewrite rule_semi_noise_guard; congruence.
Qed.

(** The cascade assigns one label only. *)
Lemma cascade_functional l z e s :
  cascade l z e s -> s = threshold_label l z e.
Proof.
  intro H; pose proof (threshold_label_cascade l z e) as H'.
  destruct H; inversion H'; tauto || congruence.
Qed.

Lemma threshold_label_in_code_labels l z e :
  In (threshold_label l z e) code_labels.
Proof.
  unfold threshold_label, code_labels.
  destruct ((0.8 <? l) && (0.3 <? z) && (e <? 50)); [ simpl; tauto | ].
  destruct (((0.3 <=? l) && (l <=? 0.8)) && ((0.1 <=? z) && (z <=? 0.3))
            && ((50 <=? e) && (e <=? 150))); simpl; tauto.
Qed.

(** The silence gate, run. *)
Lemma classify_audio_gate audio sr frame_length hop_length peak w :
  Np.max (Np.abs audio) = inr peak ->
  (peak <? 1e-6) = true ->
  classify_audio audio sr frame_length hop_length w =
  (extend w [Warn_silent] [], inr "Noise"%string).
Proof.
  intros Hmax Hgate.
  unfold classify_audio, bind, lift; rewrite Hmax, Hgate.
  reflexivity.
Qed.

Lemma max_nonempty (a : list float) :
  a <> [] -> exists peak, Np.max (Np.abs a) = inr peak.
Proof.
  destruct a as [ | x xs]; [ congruence | intros _ ].
  simpl; now eexists.
Qed.

(** A non-empty buffer always gets a label, one the program spells. *)
Lemma classify_audio_label audio sr frame_length hop_length w :
  audio <> [] ->
  exists w' label,
    classify_audio audio sr frame_length hop_length w = (w', inr label) /\
    In label code_labels.
Proof.
  intro Hne.
  destruct (max_nonempty audio Hne) as [peak Hmax].
  destruct (peak <? 1e-6) eqn:Hgate.
  - exists (extend w [Warn_silent] []), "Noise"%string; split.
    + now apply classify_audio_gate with (peak := peak).
    + unfold code_labels; simpl; tauto.
  - destruct (calculate_mfcc_returns audio sr 13 ltac:(lia)) as [mfcc Hm].
    destruct (calculate_lsfm_returns audio frame_length hop_length)
      as [lsfm Hl].
    destruct (calculate_zcr_returns audio frame_length hop_length)
      as [zcr Hz].
    destruct (classify_audio_run audio sr frame_length hop_length
                peak mfcc lsfm zcr w Hmax Hgate Hm Hl Hz) as [w' Hrun].
    exists w'; eexists; split; [ exact Hrun | ].
    apply threshold_label_in_code_labels.
Qed.

(** The library calls of one run of the configurable classifier, past its
    silence gate. *)
Lemma classify_configured_calls (c : Config) audio sr peak w :
  (0 <= cfg_n_mfcc c < 2 ^ 60)%Z ->
  Np.max (Np.abs audio) = inr peak ->
  (peak <? cfg_silence c) = false ->
  calls (fst (classify_configured c audio sr w)) =
    calls w ++ [Call_mfcc audio sr (cfg_n_mfcc c);
                Call_frame audio (cfg_frame_length c) (cfg_hop_length c);
                Call_zcr audio (cfg_frame_length c) (cfg_hop_length c)].
Proof.
  intros Hn Hmax Hgate.
  unfold classify_configured, bind at 1, lift; rewrite Hmax, Hgate.
  unfold bind at 1; rewrite calculate_mfcc_run.
  destruct (feature_mfcc audio sr (cfg_n_mfcc c)) as [e | mfcc];
    [ rewrite zeros_returns by assumption | ].
  all: unfold bind at 1; rewrite calculate_lsfm_run; cbv zeta.
  all: destruct (util_frame audio (cfg_frame_length c) (cfg_hop_length c))
         as [e' | frames];
       [ | destruct (lsfm_loop frames []) as [e' | [ | x l]] ].
  all: unfold bind at 1; rewrite calculate_zcr_run; cbv zeta.
  all: destruct (feature_zero_crossing_rate audio (cfg_frame_length c)
                   (cfg_hop_length c)).
  all: unfold bind, print, ret; simpl; now rewrite <- !app_assoc.
Qed.

End Cascade.

(** ** The flatness loop *)

Section SpectralFlatness.

Context {L : Librosa} {N : Numerics}.

Local Open Scope float_scope.

(** The loop appends, frame by frame, the flatness of the frame's
    magnitude spectrum. *)
Lemma lsfm_loop_spec frames spectra : forall lsfm,
  Forall2 (fun frame spectrum => fft_fft frame = inr spectrum) frames spectra ->
  lsfm_loop frames lsfm =
  inr (lsfm ++ map (fun X => spectral_flatness (map abs_complex X)) spectra).
Proof.
  intros lsfm H; revert lsfm.
  induction H as [ | frame spectrum frames spectra Hfft _ IH]; intro lsfm.
  - simpl; now rewrite app_nil_r.
  - simpl; rewrite Hfft.
    unfold spectral_flatness at 1, geometric_mean.
    destruct (Np.sum (map abs_complex spectrum) <? 1e-10);
      rewrite IH, <- app_assoc; reflexivity.
Qed.

(** A failing transform stops the loop with its exception. *)
Lemma lsfm_loop_raises frames : forall lsfm e,
  lsfm_loop frames lsfm = inl e ->
  exists frame, In frame frames /\ fft_fft frame = inl e.
Proof.
  induction frames as [ | frame frames IH]; intros lsfm e H; simpl in H.
  - discriminate.
  - destruct (fft_fft frame) as [e' | spectrum] eqn:Hfft.
    + inversion H; subst; exists frame; simpl; auto.
    + destruct (Np.sum (map abs_complex spectrum) <? 1e-10);
        apply IH in H; destruct H as (f & Hin & Hf);
        exists f; simpl; auto.
Qed.

Lemma ltb_leb (x y : float) : (x <? y) = true -> (x <=? y) = true.
Proof.
  rewrite ltb_spec, FloatAxioms.leb_spec; unfold SFltb, SFleb.
  destruct (SFcompare (Prim2SF x) (Prim2SF y)) as [[ | | ] | ]; congruence.
Qed.

(** [np.clip(x, 0, 1)] is NaN or lies in [0, 1]. *)
Lemma clip_unit (x : float) :
  is_nan (Np.clip x 0 1) = true \/
  ((0 <=? Np.clip x 0 1) = true /\ (Np.clip x 0 1 <=? 1) = true).
Proof.
  unfold Np.clip.
  destruct (is_nan x) eqn:Hnan; [ rewrite Hnan; now left | ].
  destruct (0 <? x) eqn:H0.
  - rewrite Hnan.
    destruct (x <? 1) eqn:H1; right; split; auto using ltb_leb.
  - right; split; reflexivity.
Qed.

Lemma spectral_flatness_unit (magnitude : list float) :
  is_nan (spectral_flatness magnitude) = true \/
  ((0 <=? spectral_flatness magnitude) = true /\
   (spectral_flatness magnitude <=? 1) = true).
Proof.
  unfold spectral_flatness.
  destruct (Np.sum magnitude <? 1e-10); [ right; split; reflexivity | ].
  apply clip_unit.
Qed.

End SpectralFlatness.

(** ** Rounding keeps the sign *)

Local Open Scope Z_scope.

Lemma leb_zero_spec (x : float) : (0 <=? x)%float = SFnonneg (Prim2SF x).
Proof.
  rewrite FloatAxioms.leb_spec.
  change (Prim2SF 0) with (S754_zero false).
  destruct (Prim2SF x) as [s | s | | s m e]; try destruct s; reflexivity.
Qed.

(** Comparison of binary64 values is antisymmetric. *)
Lemma SFcompare_antisym (x y : spec_float) :
  SFcompare y x = option_map CompOpp (SFcompare x y).
Proof.
  destruct x as [sx | sx | | sx mx ex], y as [sy | sy | | sy my ey];
    try destruct sx; try destruct sy; try reflexivity.
  all: cbn [SFcompare option_map].
  all: rewrite (Z.compare_antisym ex ey).
  all: destruct (ex ?= ey); cbn [CompOpp]; try reflexivity.
  all: change Eq with (CompOpp Eq) at 1.
  all: rewrite <- (Pos.compare_cont_antisym mx my Eq).
  all: now rewrite ?CompOpp_involutive.
Qed.

Lemma ltb_not_leb (x y : float) :
  (x <? y)%float = true -> (y <=? x)%float = false.
Proof.
  rewrite ltb_spec, FloatAxioms.leb_spec; unfold SFltb, SFleb.
  rewrite (SFcompare_antisym (Prim2SF x) (Prim2SF y)).
  destruct (SFcompare (Prim2SF x) (Prim2SF y)) as [[ | | ] | ];
    simpl; congruence.
Qed.

Lemma shr_1_nonneg mrs : 0 <= shr_m mrs -> 0 <= shr_m (shr_1 mrs).
Proof.
  destruct mrs as [m r s]; simpl.
  destruct m as [ | p | p]; try destruct p; simpl; lia.
Qed.

Lemma shr_1_div2 mrs : 0 <= shr_m mrs -> shr_m (shr_1 mrs) = shr_m mrs / 2.
Proof.
  destruct mrs as [m r s]; simpl; intro H.
  rewrite <- Z.div2_div.
  destruct m as [ | p | p]; try destruct p; simpl; lia || reflexivity.
Qed.

Lemma iter_shr_1_spec p : forall mrs,
  0 <= shr_m mrs ->
  shr_m (iter_pos shr_1 p mrs) = shr_m mrs / 2 ^ Zpos p.
Proof.
  induction p as [p IH | p IH | ]; intros mrs H; simpl iter_pos.
  - assert (0 <= shr_m (shr_1 mrs)) as H1 by now apply shr_1_nonneg.
    assert (0 <= shr_m (iter_pos shr_1 p (shr_1 mrs))) as H2
      by (rewrite IH by assumption; apply Z.div_pos; lia).
    rewrite IH, IH, shr_1_div2 by assumption.
    rewrite !Z.div_div by lia.
    f_equal.
    replace (Z.pos p~1) with (1 + Z.pos p + Z.pos p) by lia.
    rewrite !Z.pow_add_r by lia; change (2 ^ 1) with 2; lia.
  - assert (0 <= shr_m (iter_pos shr_1 p mrs)) as H2
      by (rewrite IH by assumption; apply Z.div_pos; lia).
    rewrite IH, IH by assumption.
    rewrite !Z.div_div by lia.
    f_equal.
    replace (Z.pos p~0) with (Z.pos p + Z.pos p) by lia.
    rewrite Z.pow_add_r by lia; lia.
  - now rewrite shr_1_div2.
Qed.

(** The number of binary digits of a positive number brackets its value. *)
Lemma digits2_pos_bounds (m : positive) :
  2 ^ (Zpos (digits2_pos m) - 1) <= Zpos m < 2 ^ Zpos (digits2_pos m).
Proof.
  induction m as [m IH | m IH | ]; simpl digits2_pos;
    [ | | simpl; lia ].
  all: rewrite Pos2Z.inj_succ.
  all: set (d := Zpos (digits2_pos m)) in *.
  all: replace (Z.succ d - 1) with d by lia.
  all: assert (2 ^ d = 2 * 2 ^ (d - 1)) as Hd
         by (rewrite <- Z.pow_succ_r by lia; f_equal; lia).
  all: rewrite Z.pow_succ_r by lia.
  all: lia.
Qed.

Lemma Zdigits2_upper (x k : Z) : 0 < x < 2 ^ k -> 0 <= k -> 0 < Zdigits2 x <= k.
Proof.
  intros [Hx Hk] Hk0.
  destruct x as [ | m | m]; try lia; simpl.
  split; [ lia | ].
  pose proof (digits2_pos_bounds m) as [Hlo _].
  destruct (Z.le_gt_cases (Zpos (digits2_pos m)) k) as [ | Hgt]; [ assumption | ].
  assert (2 ^ k <= 2 ^ (Zpos (digits2_pos m) - 1))
    by (apply Z.pow_le_mono_r; lia).
  lia.
Qed.

Lemma Zdigits2_lower (x : Z) : 0 < x -> 2 ^ (Zdigits2 x - 1) <= x.
Proof.
  destruct x as [ | m | m]; try lia; intros _; simpl.
  apply digits2_pos_bounds.
Qed.

Lemma fexp_64 e : fexp prec emax e = fexp64 e.
Proof. reflexivity. Qed.

(** One rounding shift of a positive mantissa whose exponent is not
    below -1073: the mantissa stays positive and does not grow, and the
    exponent moves to at most [fexp]. *)
Lemma shr_fexp_positive m e l :
  0 < m -> -1073 <= e ->
  let '(mrs, e') := shr_fexp prec emax m e l in
  0 < shr_m mrs <= m /\ e <= e' <= Z.max e (fexp64 (Zdigits2 m + e)).
Proof.
  intros Hm He.
  unfold shr_fexp; rewrite fexp_64.
  assert (shr_m (shr_record_of_loc m l) = m) as Hrec
    by (destruct l as [ | [ | | ]]; reflexivity).
  pose proof (Zdigits2_lower m Hm) as Hlow.
  assert (0 < Zdigits2 m) as Hd by (destruct m; simpl; lia).
  unfold fexp64.
  destruct (Z.max (Zdigits2 m + e - 53) (-1074) - e) as [ | n | n] eqn:Hn;
    simpl; rewrite ?Hrec; try lia.
  rewrite iter_shr_1_spec by lia. rewrite Hrec.
  assert (Zpos n <= Zdigits2 m - 1) as Hle by lia.
  assert (2 ^ Zpos n <= m).
  { apply Z.le_trans with (2 ^ (Zdigits2 m - 1)); [ | assumption ].
    apply Z.pow_le_mono_r; lia. }
  assert (0 < 2 ^ Zpos n) by (apply Z.pow_pos_nonneg; lia).
  repeat split; try lia.
  - apply Z.div_str_pos; lia.
  - apply Z.div_le_upper_bound; nia.
Qed.

Lemma shr_fexp_nonneg m e l :
  0 <= m -> 0 <= shr_m (fst (shr_fexp prec emax m e l)).
Proof.
  intro Hm; unfold shr_fexp, shr.
  assert (shr_m (shr_record_of_loc m l) = m) as Hrec
    by (destruct l as [ | [ | | ]]; reflexivity).
  destruct (fexp prec emax (Zdigits2 m + e) - e); simpl; rewrite ?Hrec;
    try assumption.
  rewrite iter_shr_1_spec, Hrec by lia.
  apply Z.div_pos; [ assumption | apply Z.pow_pos_nonneg; lia ].
Qed.

Lemma round_nearest_even_bounds m l :
  m <= round_nearest_even m l <= m + 1.
Proof.
  destruct l as [ | [ | | ]]; simpl; try lia.
  destruct (Z.even m); lia.
Qed.

Lemma binary_round_aux_signed sx m e l :
  0 <= m -> SFsigned sx (binary_round_aux prec emax sx m e l).
Proof.
  intro Hm; unfold binary_round_aux.
  pose proof (shr_fexp_nonneg m e l Hm) as H1.
  destruct (shr_fexp prec emax m e l) as [mrs' e']; simpl in H1.
  pose proof (round_nearest_even_bounds (shr_m mrs')
                (loc_of_shr_record mrs')) as Hr.
  pose proof (shr_fexp_nonneg
                (round_nearest_even (shr_m mrs') (loc_of_shr_record mrs'))
                e' loc_Exact ltac:(lia)) as H2.
  destruct (shr_fexp prec emax _ e' loc_Exact) as [mrs'' e'']; simpl in H2.
  destruct (shr_m mrs'') as [ | p | p]; [ now left | | lia ].
  destruct (e'' <=? emax - prec); [ right; right; now eexists _, _ | ].
  right; now left.
Qed.

Lemma binary_round_aux_finite sx m e l :
  0 < m < 2 ^ 64 -> -1073 <= e <= 0 ->
  exists m' e', binary_round_aux prec emax sx m e l = S754_finite sx m' e'.
Proof.
  intros Hm He; unfold binary_round_aux.
  pose proof (shr_fexp_positive m e l ltac:(lia) ltac:(lia)) as H1.
  pose proof (Zdigits2_upper m 64 Hm ltac:(lia)) as Hd.
  destruct (shr_fexp prec emax m e l) as [mrs' e'].
  destruct H1 as [Hm1 He1].
  pose proof (round_nearest_even_bounds (shr_m mrs')
                (loc_of_shr_record mrs')) as Hr.
  set (m1 := round_nearest_even (shr_m mrs') (loc_of_shr_record mrs')) in *.
  pose proof (shr_fexp_positive m1 e' loc_Exact ltac:(lia) ltac:(lia)) as H2.
  assert (0 < m1 < 2 ^ 65) as Hm1'
    by (change (2 ^ 65) with (2 * 2 ^ 64); lia).
  pose proof (Zdigits2_upper m1 65 Hm1' ltac:(lia)) as Hd1.
  destruct (shr_fexp prec emax m1 e' loc_Exact) as [mrs'' e''].
  destruct H2 as [Hm2 He2].
  unfold fexp64 in *.
  destruct (shr_m mrs'') as [ | p | p]; try lia.
  replace (e'' <=? emax - prec) with true
    by (symmetry; apply Z.leb_le; change (emax - prec) with 971; lia).
  now eexists _, _.
Qed.

Lemma iter_xO_spec (d m : positive) :
  Zpos (Pos.iter xO m d) = Zpos m * 2 ^ Zpos d.
Proof.
  induction d as [ | d IH] using Pos.peano_ind.
  - simpl; lia.
  - rewrite Pos.iter_succ, Pos2Z.inj_succ, Z.pow_succ_r by lia.
    change (Zpos (Pos.iter xO m d)~0) with (2 * Zpos (Pos.iter xO m d)).
    rewrite IH; lia.
Qed.

(** A positive 63-bit integer converts to a positive finite binary64. *)
Lemma binary_normalize_finite (z : Z) :
  0 < z < 2 ^ 63 ->
  SFpositive_finite (binary_normalize prec emax z 0 false) = true.
Proof.
  intros Hz.
  destruct z as [ | m | m]; try lia.
  unfold binary_normalize, binary_round.
  pose proof (digits2_pos_bounds m) as Hb.
  pose proof (Zdigits2_upper (Zpos m) 63 Hz ltac:(lia)) as Hd; simpl in Hd.
  rewrite fexp_64; unfold fexp64, shl_align.
  set (D := Zpos (digits2_pos m)) in *.
  replace (Z.max (D + 0 - 53) (-1074)) with (D - 53) by lia.
  destruct (D - 53 - 0) as [ | n | n] eqn:Hn.
  - destruct (binary_round_aux_finite false (Zpos m) 0 loc_Exact)
      as (m' & e' & ->); [ lia | lia | reflexivity ].
  - destruct (binary_round_aux_finite false (Zpos m) 0 loc_Exact)
      as (m' & e' & ->); [ lia | lia | reflexivity ].
  - destruct (binary_round_aux_finite false (Zpos (Pos.iter xO m n))
                (D - 53) loc_Exact) as (m' & e' & ->); [ | lia | reflexivity ].
    rewrite iter_xO_spec; split; [ lia | ].
    assert (Zpos n = 53 - D) as -> by lia.
    assert (2 ^ D * 2 ^ (53 - D) = 2 ^ 53) as Hp
      by (rewrite <- Z.pow_add_r by lia; f_equal; lia).
    assert (0 < 2 ^ (53 - D)) by (apply Z.pow_pos_nonneg; lia).
    assert (2 ^ 53 < 2 ^ 64) by (apply Z.pow_lt_mono_r; lia).
    nia.
Qed.

Lemma SFadd_nonneg x y :
  SFnonneg x = true -> SFnonneg y = true ->
  SFnonneg (SFadd prec emax x y) = true.
Proof.
  destruct x as [sx | sx | | sx mx ex], y as [sy | sy | | sy my ey];
    try destruct sx; try destruct sy; simpl; try discriminate; try reflexivity.
  intros _ _.
  set (ez := Z.min ex ey).
  unfold binary_normalize, binary_round.
  destruct (shl_align _ _ _) as [mz e].
  destruct (binary_round_aux_signed false (Zpos mz) e loc_Exact ltac:(lia))
    as [-> | [-> | (m' & e' & ->)]]; reflexivity.
Qed.

Lemma SFdiv_nonneg x y :
  SFnonneg x = true -> SFpositive_finite y = true ->
  SFnonneg (SFdiv prec emax x y) = true.
Proof.
  destruct x as [sx | sx | | sx mx ex], y as [sy | sy | | sy my ey];
    try destruct sx; try destruct sy; simpl; try discriminate; try reflexivity.
  intros _ _.
  unfold SFdiv_core_binary.
  set (m' := match _ with Z0 => _ | Zpos _ => _ | Zneg _ => _ end).
  assert (0 <= m') as Hm'.
  { subst m'. destruct (ex - ey - _); try lia. apply Z.shiftl_nonneg; lia. }
  pose proof (Z.div_pos m' (Zpos my) Hm' ltac:(lia)) as Hq.
  unfold Z.div in Hq.
  destruct (Z.div_eucl m' (Zpos my)) as [q r].
  destruct (binary_round_aux_signed false q
              (Z.min (fexp prec emax (Zdigits2 (Zpos mx) + ex
                                      - (Zdigits2 (Zpos my) + ey))) (ex - ey))
              (new_location (Zpos my) r) Hq)
    as [-> | [-> | (m'' & e'' & ->)]]; reflexivity.
Qed.

(** Back to the primitive floats. *)
Lemma add_nonneg (x y : float) :
  (0 <=? x)%float = true -> (0 <=? y)%float = true ->
  (0 <=? x + y)%float = true.
Proof.
  rewrite !leb_zero_spec, add_spec; apply SFadd_nonneg.
Qed.

Lemma div_nonneg (x y : float) :
  (0 <=? x)%float = true -> SFpositive_finite (Prim2SF y) = true ->
  (0 <=? x / y)%float = true.
Proof.
  rewrite !leb_zero_spec, div_spec; apply SFdiv_nonneg.
Qed.

Lemma float_of_nat_positive (n : nat) :
  (0 < n)%nat -> Z.of_nat n < 2 ^ 63 ->
  SFpositive_finite (Prim2SF (Np.float_of_nat n)) = true.
Proof.
  intros Hn Hb; unfold Np.float_of_nat.
  rewrite of_uint63_spec, Uint63.of_Z_spec.
  change Uint63.wB with (2 ^ 63).
  rewrite Z.mod_small by lia.
  apply binary_normalize_finite; lia.
Qed.

Lemma fold_add_nonneg (a : list float) : forall acc : float,
  (0 <=? acc)%float = true ->
  Forall (fun x => (0 <=? x)%float = true) a ->
  (0 <=? fold_left PrimFloat.add a acc)%float = true.
Proof.
  induction a as [ | x a IH]; intros acc Hacc Hall; simpl; [ assumption | ].
  inversion Hall; subst.
  apply IH; [ now apply add_nonneg | assumption ].
Qed.

Lemma sum_nonneg (a : list float) :
  Forall (fun x => (0 <=? x)%float = true) a -> (0 <=? Np.sum a)%float = true.
Proof. intro Hall; now apply fold_add_nonneg. Qed.

(** The mean of a non-empty array of non-negative values is
    non-negative (in particular it is not NaN). *)
Lemma mean_nonneg (a : list float) :
  a <> [] -> Z.of_nat (List.length a) < 2 ^ 63 ->
  Forall (fun x => (0 <=? x)%float = true) a ->
  (0 <=? Np.mean a)%float = true.
Proof.
  intros Hne Hlen Hall; unfold Np.mean.
  apply div_nonneg; [ now apply sum_nonneg | ].
  apply float_of_nat_positive; [ | assumption ].
  destruct a; [ congruence | simpl; lia ].
Qed.

(** ** Zero-crossing rate *)

Section ZeroCrossing.

Context {L : Librosa}.

Local Open Scope float_scope.

(** One run of [calculate_zcr] when the rates the library may answer are
    well formed. *)
Lemma zcr_run_nonneg audio frame_length hop_length w :
  (forall zcr, feature_zero_crossing_rate audio frame_length hop_length
               = inr zcr -> rates_ok zcr) ->
  exists w' z,
    calculate_zcr audio frame_length hop_length w = (w', inr z) /\
    (0 <=? z) = true /\
    (forall e, feature_zero_crossing_rate audio frame_length hop_length
               = inl e -> z = 0).
Proof.
  intro Hlib; rewrite calculate_zcr_run; cbv zeta.
  destruct (feature_zero_crossing_rate audio frame_length hop_length)
    as [e | zcr].
  - eexists _, _; repeat split; reflexivity.
  - destruct (Hlib zcr eq_refl) as (Hne & Hlen & Hall).
    eexists _, _; split; [ reflexivity | split; [ | discriminate ] ].
    now apply mean_nonneg.
Qed.

End ZeroCrossing.

(** ** The librosa model answers well-formed rates *)

Section ModelRates.

Import LibrosaModel.

Local Open Scope float_scope.

Lemma frames_from_length (fl hop : nat) : forall (count : nat) (x : list float),
  (pred count * hop + fl <= List.length x)%nat ->
  List.length (frames_from x fl hop count) = count /\
  Forall (fun f => List.length f = fl) (frames_from x fl hop count).
Proof.
  induction count as [ | c IH]; intros x Hlen.
  - split; [ reflexivity | constructor ].
  - assert (List.length (firstn fl x) = fl) as Hfirst
      by (rewrite length_firstn; simpl in Hlen; lia).
    destruct c as [ | c'].
    + simpl; split; [ reflexivity | repeat constructor; assumption ].
    + destruct (IH (skipn hop x)) as [Hc Hall].
      { rewrite length_skipn; simpl in *; lia. }
      change (frames_from x fl hop (S (S c')))
        with (firstn fl x :: frames_from (skipn hop x) fl hop (S c')).
      split; [ cbn [List.length]; now rewrite Hc | ].
      constructor; assumption.
Qed.

Lemma crossings_from_length (xs : list float) : forall prev,
  List.length (crossings_from prev xs) = List.length xs.
Proof.
  induction xs as [ | x xs IH]; intro prev; simpl; [ | rewrite IH ];
    reflexivity.
Qed.

Lemma zero_crossings_length (f : list float) :
  List.length (zero_crossings f) = List.length f.
Proof.
  destruct f as [ | x xs]; simpl; [ | rewrite crossings_from_length ];
    reflexivity.
Qed.

(** The crossing rate of a frame that holds a sample is not negative. *)
Lemma frame_rate_nonneg (f : list float) :
  f <> [] -> (Z.of_nat (List.length f) < 2 ^ 63)%Z ->
  (0 <=? frame_rate f) = true.
Proof.
  intros Hne Hlen; unfold frame_rate.
  apply mean_nonneg.
  - intro H; apply (f_equal (@List.length _)) in H.
    rewrite length_map, zero_crossings_length in H.
    destruct f; [ congruence | discriminate ].
  - now rewrite length_map, zero_crossings_length.
  - apply Forall_forall; intros r Hin.
    apply in_map_iff in Hin; destruct Hin as ([ | ] & <- & _); reflexivity.
Qed.

Lemma frame_answers (x : list float) (frame_length hop_length : Z) frames :
  frame x frame_length hop_length = inr frames ->
  (1 <= frame_length)%Z ->
  frames <> [] /\
  (Z.of_nat (List.length frames) <= Z.of_nat (List.length x))%Z /\
  Forall (fun f => Z.of_nat (List.length f) = frame_length) frames.
Proof.
  unfold frame; intros H Hfl.
  set (n := Z.of_nat (List.length x)) in *.
  set (q := ((n - frame_length) / hop_length)%Z) in *.
  destruct (Z.ltb_spec n frame_length); [ discriminate | ].
  destruct (Z.ltb_spec hop_length 1); [ discriminate | ].
  destruct (Z.ltb_spec frame_length 0); [ discriminate | ].
  assert (0 <= q)%Z as Hq by (apply Z.div_pos; lia).
  assert (hop_length * q <= n - frame_length)%Z as Hm
    by (apply Z.mul_div_le; lia).
  assert (Z.to_nat (1 + q) = S (Z.to_nat q)) as Hs by lia.
  rewrite Hs in H.
  assert (frames =
          frames_from x (Z.to_nat frame_length) (Z.to_nat hop_length)
            (S (Z.to_nat q))) as -> by congruence.
  destruct (frames_from_length (Z.to_nat frame_length) (Z.to_nat hop_length)
              (S (Z.to_nat q)) x) as [Hc Hall].
  { cbn [pred]. subst n. nia. }
  split; [ | split ].
  - intro Hnil; rewrite Hnil in Hc; discriminate.
  - rewrite Hc. nia.
  - eapply Forall_impl; [ | exact Hall ].
    intros f Hf; cbv beta in Hf; lia.
Qed.

Lemma pad_edge_length (y : list float) (k : nat) :
  List.length (pad_edge y k) = (k + List.length y + k)%nat.
Proof. unfold pad_edge; rewrite !length_app, !repeat_length; lia. Qed.

Lemma zero_crossing_rate_rates_ok y frame_length hop_length zcr :
  (Z.of_nat (List.length y) + frame_length < 2 ^ 63)%Z ->
  zero_crossing_rate y frame_length hop_length = inr zcr ->
  rates_ok zcr.
Proof.
  intros Hsize; unfold zero_crossing_rate.
  destruct (valid_audio y); [ discriminate | ]; cbv zeta.
  destruct (Z.ltb_spec frame_length 0); [ discriminate | ].
  destruct (_ && _); [ discriminate | ].
  destruct (frame (pad_edge y (Z.to_nat (frame_length / 2)))
              frame_length hop_length) as [e | frames] eqn:Hframe;
    [ discriminate | ].
  destruct (Z.eqb_spec frame_length 0); [ discriminate | ].
  intro H'; inversion H'; subst zcr; clear H'.
  destruct (frame_answers _ _ _ _ Hframe ltac:(lia)) as (Hne & Hcount & Hall).
  rewrite pad_edge_length in Hcount.
  assert (2 * (frame_length / 2) <= frame_length)%Z
    by (apply Z.mul_div_le; lia).
  unfold rates_ok; simpl List.concat; rewrite app_nil_r.
  split; [ | split ].
  - destruct frames; [ congruence | discriminate ].
  - rewrite length_map; lia.
  - apply Forall_forall; intros r Hin.
    apply in_map_iff in Hin; destruct Hin as (f & <- & Hin).
    rewrite Forall_forall in Hall; specialize (Hall f Hin).
    apply frame_rate_nonneg; [ | lia ].
    destruct f; [ simpl in Hall; lia | discriminate ].
Qed.



End ModelRates.

(** ** The program at a sample format *)

Section TypedRuns.

Context {L : Librosa} {N : Numerics}.

Local Open Scope float_scope.

Lemma typed_calculate_mfcc_run dt audio sr n_mfcc w :
  Typed.calculate_mfcc dt audio sr n_mfcc w =
  match feature_mfcc audio sr n_mfcc with
  | inr mfcc =>
      (extend w [] [Call_mfcc audio sr n_mfcc],
       inr (dt, Typed.mean_axis1 dt mfcc))
  | inl e =>
      (extend w [Err_mfcc e] [Call_mfcc audio sr n_mfcc],
       match Np.zeros n_mfcc with
       | inl e' => inl e'
       | inr zeros => inr (Float64, zeros)
       end)
  end.
Proof.
  unfold Typed.calculate_mfcc, try_except, bind, call, ret, print, lift.
  destruct (feature_mfcc audio sr n_mfcc); simpl;
    [ destruct (Np.zeros n_mfcc) | ]; now rewrite ?extend_extend.
Qed.

Lemma typed_calculate_lsfm_run dt audio frame_length hop_length w :
  Typed.calculate_lsfm dt audio frame_length hop_length w =
  let c := Call_frame audio frame_length hop_length in
  match util_frame audio frame_length hop_length with
  | inl e => (extend w [Err_lsfm e] [c], inr (Float64, 1))
  | inr frames =>
      match Typed.lsfm_loop dt frames [] with
      | inl e => (extend w [Err_lsfm e] [c], inr (Float64, 1))
      | inr [] => (extend w [] [c], inr (Float64, 1))
      | inr (x :: l) => (extend w [] [c], inr (Typed.mean_list (x :: l)))
      end
  end.
Proof.
  unfold Typed.calculate_lsfm, try_except, bind, call, ret, print, lift.
  destruct (util_frame audio frame_length hop_length) as [e | frames]; simpl.
  - now rewrite extend_extend.
  - destruct (Typed.lsfm_loop dt frames []) as [e | [ | x l]]; simpl;
      now rewrite ?extend_extend.
Qed.

Lemma typed_calculate_zcr_run audio frame_length hop_length w :
  Typed.calculate_zcr audio frame_length hop_length w =
  let c := Call_zcr audio frame_length hop_length in
  match feature_zero_crossing_rate audio frame_length hop_length with
  | inr zcr => (extend w [] [c], inr (Float64, Np.mean_all zcr))
  | inl e => (extend w [Err_zcr e] [c], inr (Float64, 0))
  end.
Proof.
  unfold Typed.calculate_zcr, try_except, bind, call, ret, print, lift.
  destruct (feature_zero_crossing_rate audio frame_length hop_length); simpl;
    now rewrite ?extend_extend.
Qed.

(** The silence gate at the format [dt], run. *)
Lemma typed_classify_audio_gate dt audio sr frame_length hop_length peak w :
  Np.max (Np.abs audio) = inr peak ->
  (peak <? Typed.weak dt 1e-6) = true ->
  Typed.classify_audio dt audio sr frame_length hop_length w =
  (extend w [Warn_silent] [], inr "Noise"%string).
Proof.
  intros Hmax Hgate.
  unfold Typed.classify_audio, bind, lift; rewrite Hmax, Hgate.
  reflexivity.
Qed.

(** Past the gate the three library routines are called, in the order of
    the program, whatever they answer. *)
Lemma typed_classify_audio_calls dt audio sr frame_length hop_length peak w :
  Np.max (Np.abs audio) = inr peak ->
  (peak <? Typed.weak dt 1e-6) = false ->
  calls (fst (Typed.classify_audio dt audio sr frame_length hop_length w)) =
    calls w ++ [Call_mfcc audio sr 13;
                Call_frame audio frame_length hop_length;
                Call_zcr audio frame_length hop_length].
Proof.
  intros Hmax Hgate.
  unfold Typed.classify_audio, bind at 1, lift; rewrite Hmax, Hgate.
  unfold bind at 1; rewrite typed_calculate_mfcc_run.
  destruct (feature_mfcc audio sr 13) as [e | mfcc];
    [ rewrite (zeros_returns 13) by lia | ].
  all: unfold bind at 1; rewrite typed_calculate_lsfm_run; cbv zeta.
  all: destruct (util_frame audio frame_length hop_length) as [e' | frames];
       [ | destruct (Typed.lsfm_loop dt frames []) as [e' | [ | x l]] ].
  all: unfold bind at 1; rewrite typed_calculate_zcr_run; cbv zeta.
  all: destruct (feature_zero_crossing_rate audio frame_length hop_length).
  all: unfold bind, print, ret; simpl; now rewrite <- !app_assoc.
Qed.

(** At [Float64] the typed operations are those of the binary64 program. *)
Lemma typed_sum_float64 (a : list float) : Typed.sum Float64 a = Np.sum a.
Proof. reflexivity. Qed.

Lemma typed_mean_float64 (a : list float) : Typed.mean Float64 a = Np.mean a.
Proof. reflexivity. Qed.

Lemma list_dtype_float64 (l : list float) :
  Typed.list_dtype (map (pair Float64) l) = Float64.
Proof. destruct l; reflexivity. Qed.

Lemma mean_list_float64 (l : list float) :
  Typed.mean_list (map (pair Float64) l) = (Float64, Np.mean l).
Proof.
  unfold Typed.mean_list; rewrite list_dtype_float64, map_map; simpl.
  now rewrite map_id.
Qed.

Lemma typed_lsfm_loop_float64 (frames : list (list float)) :
  forall acc : list float,
  Typed.lsfm_loop Float64 frames (map (pair Float64) acc) =
  match lsfm_loop frames acc with
  | inl e => inl e
  | inr lsfm => inr (map (pair Float64) lsfm)
  end.
Proof.
  induction frames as [ | frame rest IH]; intro acc; simpl; [ reflexivity | ].
  destruct (fft_fft frame) as [e | spectrum]; [ reflexivity | ].
  change (Typed.sum Float64 (map abs_complex spectrum))
    with (Np.sum (map abs_complex spectrum)).
  change (Typed.weak Float64 1e-10) with 1e-10.
  destruct (Np.sum (map abs_complex spectrum) <? 1e-10).
  - rewrite <- IH, map_app; reflexivity.
  - rewrite <- IH, map_app; reflexivity.
Qed.

Lemma typed_threshold_label_float64 (lsfm zcr mfcc_energy : float) :
  Typed.threshold_label (Float64, lsfm) (Float64, zcr) (Float64, mfcc_energy)
  = threshold_label lsfm zcr mfcc_energy.
Proof. reflexivity. Qed.

Lemma bind_run {A B} (m : M A) (k : A -> M B) (w : world) :
  bind m k w = match m w with
               | (w', inr a) => k a w'
               | (w', inl e) => (w', inl e)
               end.
Proof. reflexivity. Qed.

(** On a float64 buffer the typed program is the binary64 program. *)
Lemma typed_classify_audio_float64 audio sr frame_length hop_length w :
  Typed.classify_audio Float64 audio sr frame_length hop_length w =
  classify_audio audio sr frame_length hop_length w.
Proof.
  unfold Typed.classify_audio, classify_audio.
  rewrite !(bind_run (lift _)); unfold lift.
  destruct (Np.max (Np.abs audio)) as [e | peak]; [ reflexivity | ].
  change (Typed.weak Float64 1e-6) with 1e-6.
  destruct (peak <? 1e-6); [ reflexivity | ].
  rewrite (bind_run (Typed.calculate_mfcc _ _ _ _)),
    (bind_run (calculate_mfcc _ _ _)).
  rewrite typed_calculate_mfcc_run, calculate_mfcc_run.
  destruct (feature_mfcc audio sr 13) as [e | mfcc];
    [ rewrite (zeros_returns 13) by lia | ].
  all: rewrite (bind_run (Typed.calculate_lsfm _ _ _ _)),
         (bind_run (calculate_lsfm _ _ _)).
  all: rewrite typed_calculate_lsfm_run, calculate_lsfm_run; cbv zeta.
  all: destruct (util_frame audio frame_length hop_length) as [e' | frames].
  all: try (change (Typed.lsfm_loop Float64 frames [])
              with (Typed.lsfm_loop Float64 frames (map (pair Float64) []));
            rewrite (typed_lsfm_loop_float64 frames []);
            destruct (lsfm_loop frames []) as [e' | [ | x l]]).
  all: cbn [map]; cbv beta iota.
  all: rewrite (bind_run (Typed.calculate_zcr _ _ _)),
         (bind_run (calculate_zcr _ _ _)).
  all: rewrite typed_calculate_zcr_run, calculate_zcr_run; cbv zeta.
  all: destruct (feature_zero_crossing_rate audio frame_length hop_length).
  all: try (change ((Float64, x) :: map (pair Float64) l)
              with (map (pair Float64) (x :: l));
            rewrite mean_list_float64).
  all: reflexivity.
Qed.

End TypedRuns.

(** * Main results *)

Section Results.

Context {L : Librosa} {N : Numerics}.

Local Open Scope float_scope.


(** C2 (amended): when the peak absolute sample value is below the
    threshold 1e-6 taken in the sample format of the buffer (1e-6 itself
    for a float64 buffer, 1e-6 rounded to float32 for a float32 buffer),
    [classify_audio] returns Noise at once: it writes the warning and
    nothing else, and calls no library routine, whatever the sample rate
    and the framing parameters; none of the three feature computations
    runs, since each of them starts with a library call.  On a float64
    buffer this is the program [classify_audio] of the binary64
    embedding. *)
Theorem silence_gate dt audio sr frame_length hop_length peak w :
  Np.max (Np.abs audio) = inr peak ->
  (peak <? Typed.weak dt 1e-6) = true ->
  Typed.classify_audio dt audio sr frame_length hop_length w =
    (World (stdout w ++ [Warn_silent]) (calls w), inr "Noise"%string) /\
  (forall a s n w1,
     calls (fst (Typed.calculate_mfcc dt a s n w1)) <> calls w1) /\
  (forall a f h w1,
     calls (fst (Typed.calculate_lsfm dt a f h w1)) <> calls w1) /\
  (forall a f h w1, calls (fst (Typed.calculate_zcr a f h w1)) <> calls w1) /\
  (dt = Float64 ->
   (peak <? 1e-6) = true /\
   classify_audio audio sr frame_length hop_length w =
     (World (stdout w ++ [Warn_silent]) (calls w), inr "Noise"%string)).
Proof.
  intros Hmax Hgate.
  assert (forall (l : list ext_call) c, l ++ [c] <> l) as Hgrow.
  { intros l c H. apply (f_equal (@List.length _)) in H.
    rewrite length_app in H; simpl in H; lia. }
  assert (Typed.classify_audio dt audio sr frame_length hop_length w =
          (World (stdout w ++ [Warn_silent]) (calls w), inr "Noise"%string))
    as Hrun.
  { rewrite (typed_classify_audio_gate dt audio sr frame_length hop_length
               peak w Hmax Hgate).
    unfold extend; now rewrite app_nil_r. }
  split; [ exact Hrun | ].
  split; [ | split; [ | split ] ].
  - intros a s n w1; rewrite typed_calculate_mfcc_run.
    destruct (feature_mfcc a s n); simpl; apply Hgrow.
  - intros a f h w1; rewrite typed_calculate_lsfm_run; cbv zeta.
    destruct (util_frame a f h) as [e | frames]; simpl; [ apply Hgrow | ].
    destruct (Typed.lsfm_loop dt frames []) as [e | [ | x l]]; simpl;
      apply Hgrow.
  - intros a f h w1; rewrite typed_calculate_zcr_run; cbv zeta.
    destruct (feature_zero_crossing_rate a f h); simpl; apply Hgrow.
  - intros ->; split; [ exact Hgate | ].
    now rewrite <- typed_classify_audio_float64.
Qed.

(** C3: when the buffer frames into [frames] and the DFT of each frame is
    [spectra], [calculate_lsfm] returns the arithmetic mean of the
    per-frame flatness values, where the flatness of a frame is 1.0 if its
    magnitudes sum to less than 1e-10 and otherwise
    exp(mean(log(magnitude + 1e-10))) / (mean(magnitude) + 1e-10) clamped
    to [0, 1] (each value lies in [0, 1] unless it is NaN); it returns 1.0
    when there is no frame, be it that the framing answers none or that it
    rejects the buffer as too short. *)
Theorem calculate_lsfm_mean_flatness audio frame_length hop_length w :
  (forall frames spectra,
     util_frame audio frame_length hop_length = inr frames ->
     Forall2 (fun frame spectrum => fft_fft frame = inr spectrum)
       frames spectra ->
     let flatness :=
       map (fun X => spectral_flatness (map abs_complex X)) spectra in
     calculate_lsfm audio frame_length hop_length w =
       (extend w [] [Call_frame audio frame_length hop_length],
        inr (match frames with [] => 1 | _ :: _ => Np.mean flatness end)) /\
     Forall (fun f => is_nan f = true \/
                      ((0 <=? f) = true /\ (f <=? 1) = true)) flatness) /\
  (forall e,
     util_frame audio frame_length hop_length = inl e ->
     calculate_lsfm audio frame_length hop_length w =
       (extend w [Err_lsfm e] [Call_frame audio frame_length hop_length],
        inr 1)).
Proof.
  split.
  - intros frames spectra Hframe Hfft flatness; split.
    + rewrite calculate_lsfm_run; cbv zeta.
      rewrite Hframe, (lsfm_loop_spec frames spectra [] Hfft); simpl.
      fold flatness.
      destruct Hfft as [ | frame spectrum frames spectra _ _]; reflexivity.
    + subst flatness; apply Forall_forall; intros f Hin.
      apply in_map_iff in Hin; destruct Hin as (X & <- & _).
      apply spectral_flatness_unit.
  - intros e Hframe.
    rewrite calculate_lsfm_run; cbv zeta; now rewrite Hframe.
Qed.

(** C4 (amended): for every non-empty buffer [classify_audio] returns
    exactly one of the three strings "Noise", "Semi-Noise", "None Noise";
    the catch-all label is spelled with a space. *)
Theorem classify_audio_returns_code_label audio sr frame_length hop_length w :
  audio <> [] ->
  exists w' label,
    classify_audio audio sr frame_length hop_length w = (w', inr label) /\
    (label = "Noise" \/ label = "Semi-Noise" \/ label = "None Noise")%string.
Proof.
  intro Hne.
  destruct (classify_audio_label audio sr frame_length hop_length w Hne)
    as (w' & label & Hrun & Hin).
  exists w', label; split; [ exact Hrun | ].
  unfold code_labels in Hin; simpl in Hin.
  intuition (auto using eq_sym).
Qed.

(** C5 (amended): [calculate_lsfm] and [calculate_zcr] never raise; when
    the library call (or, for LSFM, the transform of a frame) raises they
    return 1.0 and 0.0.  [calculate_mfcc] raises exactly when the library
    call raises and [np.zeros(n_mfcc)], which builds the fallback inside
    the handler, raises as well, and then with the exception of
    [np.zeros]; this happens for a negative [n_mfcc] and for one of 2^60
    or more.  Whenever [np.zeros(n_mfcc)] builds its array,
    [calculate_mfcc] returns, and when the library call raises it returns
    that array, which holds [n_mfcc] zeros. *)
Theorem feature_computations_never_raise
  audio sr n_mfcc frame_length hop_length w :
  (forall e,
     snd (calculate_mfcc audio sr n_mfcc w) = inl e <->
     (exists e', feature_mfcc audio sr n_mfcc = inl e') /\
     Np.zeros n_mfcc = inl e) /\
  ((n_mfcc < 0 \/ 2 ^ 60 <= n_mfcc)%Z -> exists e, Np.zeros n_mfcc = inl e) /\
  (forall zeros,
     Np.zeros n_mfcc = inr zeros ->
     zeros = repeat 0 (Z.to_nat n_mfcc) /\
     exists w' mfcc,
       calculate_mfcc audio sr n_mfcc w = (w', inr mfcc) /\
       forall e, feature_mfcc audio sr n_mfcc = inl e -> mfcc = zeros) /\
  (exists w' lsfm,
     calculate_lsfm audio frame_length hop_length w = (w', inr lsfm) /\
     (forall e, util_frame audio frame_length hop_length = inl e ->
                lsfm = 1) /\
     (forall frames e,
        util_frame audio frame_length hop_length = inr frames ->
        lsfm_loop frames [] = inl e -> lsfm = 1)) /\
  (exists w' zcr,
     calculate_zcr audio frame_length hop_length w = (w', inr zcr) /\
     forall e, feature_zero_crossing_rate audio frame_length hop_length
               = inl e -> zcr = 0).
Proof.
  split; [ | split; [ | split; [ | split ] ] ].
  - intro e; rewrite calculate_mfcc_run.
    destruct (feature_mfcc audio sr n_mfcc) as [e' | mfcc]; simpl.
    + split; [ intro H; split; [ now exists e' | exact H ] | tauto ].
    + split; [ discriminate | intros [[e' H] _]; discriminate ].
  - intro Hn; destruct (zeros_cases n_mfcc) as [[Hin _] | [_ H]];
      [ lia | exact H ].
  - intros zeros Hz; destruct (zeros_inr _ _ Hz) as [_ ->].
    split; [ reflexivity | ].
    rewrite calculate_mfcc_run.
    destruct (feature_mfcc audio sr n_mfcc) as [e | mfcc].
    + rewrite Hz; eexists _, _; split; [ reflexivity | reflexivity ].
    + eexists _, _; split; [ reflexivity | discriminate ].
  - rewrite calculate_lsfm_run; cbv zeta.
    destruct (util_frame audio frame_length hop_length) as [e | frames].
    + eexists _, _; split; [ reflexivity | split; [ reflexivity | ] ].
      discriminate.
    + destruct (lsfm_loop frames []) as [e | [ | x l]] eqn:Hloop;
        eexists _, _; (split; [ reflexivity | split; [ discriminate | ] ]);
        intros frames' e' Heq Hl; inversion Heq; subst;
        rewrite Hloop in Hl; try discriminate; reflexivity.
  - rewrite calculate_zcr_run; cbv zeta.
    destruct (feature_zero_crossing_rate audio frame_length hop_length).
    + eexists _, _; split; reflexivity.
    + eexists _, _; split; [ reflexivity | discriminate ].
Qed.


(** C8 (amended): of the recognized options only [frame_length] and
    [hop_length] can be overridden per call: [classify_audio] is the
    configurable classifier at the configuration that fixes 13
    coefficients, the silence threshold 1e-6 and the bounds 0.3/0.8,
    0.1/0.3, 50/150; past the silence gate it calls the MFCC transform
    with 13 coefficients and the two framing routines with the given
    [frame_length] and [hop_length]. *)
Theorem classify_audio_configuration
  audio sr frame_length hop_length peak w :
  Np.max (Np.abs audio) = inr peak ->
  (peak <? 1e-6) = false ->
  classify_audio audio sr frame_length hop_length w =
    classify_configured (interface_config frame_length hop_length)
      audio sr w /\
  calls (fst (classify_audio audio sr frame_length hop_length w)) =
    calls w ++ [Call_mfcc audio sr 13;
                Call_frame audio frame_length hop_length;
                Call_zcr audio frame_length hop_length].
Proof.
  intros Hmax Hgate; split; [ reflexivity | ].
  apply (classify_configured_calls (interface_config frame_length hop_length)
           audio sr peak w); [ simpl; lia | exact Hmax | exact Hgate ].
Qed.

(** C9: when the three feature computations return their fallback values
    (a zero vector of 13 coefficients, LSFM 1.0, ZCR 0.0), [mfcc_energy]
    is 0.0, rule 1 fails on ZCR > 0.3 and rule 2 on ZCR >= 0.1, and
    [classify_audio] returns the catch-all label, not Noise. *)
Theorem fallback_features_catch_all audio sr frame_length hop_length peak w :
  Np.max (Np.abs audio) = inr peak ->
  (peak <? 1e-6) = false ->
  value (calculate_mfcc audio sr 13) = inr (repeat 0 13) ->
  value (calculate_lsfm audio frame_length hop_length) = inr 1 ->
  value (calculate_zcr audio frame_length hop_length) = inr 0 ->
  Np.mean (Np.abs (repeat 0 13)) = 0 /\
  (0.3 <? 0) = false /\
  (0.1 <=? 0) = false /\
  ~ rule_noise 1 0 0 /\
  ~ rule_semi_noise 1 0 0 /\
  exists w',
    classify_audio audio sr frame_length hop_length w =
    (w', inr "None Noise"%string).
Proof.
  intros Hmax Hgate Hm Hl Hz.
  split; [ reflexivity | ].
  split; [ reflexivity | ].
  split; [ reflexivity | ].
  split; [ rewrite rule_noise_guard; vm_compute; discriminate | ].
  split; [ rewrite rule_semi_noise_guard; vm_compute; discriminate | ].
  destruct (classify_audio_run audio sr frame_length hop_length
              peak _ _ _ w Hmax Hgate Hm Hl Hz) as [w' Hrun].
  exists w'; rewrite Hrun; reflexivity.
Qed.

(** C10: the peak of the silence gate exists for every non-empty buffer,
    and [classify_audio] then returns a label; on the empty buffer the max
    reduction raises ValueError and [classify_audio] propagates it, leaving
    the world untouched.  So [classify_audio] returns a label exactly on
    the non-empty buffers. *)
Theorem classify_audio_total_iff_nonempty audio sr frame_length hop_length w :
  (audio <> [] <-> exists peak, Np.max (Np.abs audio) = inr peak) /\
  (audio <> [] <->
   exists w' label,
     classify_audio audio sr frame_length hop_length w = (w', inr label)) /\
  classify_audio [] sr frame_length hop_length w =
    (w, inl (ValueError
      "zero-size array to reduction operation maximum which has no identity")).
Proof.
  split; [ | split ].
  - split; [ apply max_nonempty | ].
    intros [peak H] ->; discriminate.
  - split.
    + intro Hne.
      destruct (classify_audio_label audio sr frame_length hop_length w Hne)
        as (w' & label & Hrun & _).
      now exists w', label.
    + intros (w' & label & Hrun) ->.
      unfold classify_audio, bind, lift in Hrun; simpl in Hrun.
      discriminate.
  - reflexivity.
Qed.

(** X1: rule 1, rule 2 and the catch-all are mutually exclusive and
    exhaustive: every triple (LSFM, ZCR, mfcc_energy) is assigned exactly
    one label, the one the program's [if / elif / else] returns. *)
Theorem cascade_exactly_one_label lsfm zcr mfcc_energy :
  cascade lsfm zcr mfcc_energy (threshold_label lsfm zcr mfcc_energy) /\
  (forall label,
     cascade lsfm zcr mfcc_energy label ->
     label = threshold_label lsfm zcr mfcc_energy) /\
  ~ (rule_noise lsfm zcr mfcc_energy /\ rule_semi_noise lsfm zcr mfcc_energy).
Proof.
  split; [ apply threshold_label_cascade | split ].
  - intros label H; now apply cascade_functional.
  - intros [(Hl & _) ((_ & Hl') & _)].
    apply ltb_not_leb in Hl; congruence.
Qed.

End Results.

(** ** Closed runs *)


(** C2: the one-sample float32 buffer [9.999999974752427e-07] has a peak
    below 1e-6, yet [classify_audio] does not return at the gate: the
    sample is 1e-6 rounded to float32, the comparison is made in float32,
    and the three library routines are called. *)
Lemma silence_gate_float32_counterexample :
  Typed.cast Float32 9.999999974752427e-07 = 9.999999974752427e-07%float /\
  Np.max (Np.abs [9.999999974752427e-07%float]) =
    inr 9.999999974752427e-07%float /\
  (9.999999974752427e-07 <? 1e-6)%float = true /\
  Typed.weak Float32 1e-6 = 9.999999974752427e-07%float /\
  snd (@Typed.classify_audio L0 N0 Float32 [9.999999974752427e-07%float]
         22050 2048 512 world0) = inr "None Noise"%string /\
  calls (fst (@Typed.classify_audio L0 N0 Float32
                [9.999999974752427e-07%float] 22050 2048 512 world0)) =
    [Call_mfcc [9.999999974752427e-07%float] 22050 13;
     Call_frame [9.999999974752427e-07%float] 2048 512;
     Call_zcr [9.999999974752427e-07%float] 2048 512].
Proof. repeat split; vm_compute; reflexivity. Qed.

(** C2 (amended), run on 4096 zero samples at 16 kHz, as float32. *)
Lemma silence_gate_witness :
  Np.max (Np.abs (repeat 0%float 4096)) = inr 0%float /\
  (0 <? Typed.weak Float32 1e-6)%float = true /\
  @Typed.classify_audio L0 N0 Float32 (repeat 0%float 4096) 16000 2048 512
     world0 = (World [Warn_silent] [], inr "Noise"%string).
Proof.
  split; [ vm_compute; reflexivity | split; [ vm_compute; reflexivity | ] ].
  refine (proj1 (@silence_gate L0 N0 Float32 (repeat 0%float 4096) 16000 2048
                   512 0%float world0 _ _)); vm_compute; reflexivity.
Defined.

(** C3, run on three zero samples framed two by two: both frames are
    degenerate and the LSFM is 1.0. *)
Lemma calculate_lsfm_mean_flatness_witness :
  @util_frame L0 [0; 0; 0]%float 2 1 = inr [[0; 0]; [0; 0]]%float /\
  Forall2 (fun frame spectrum => @fft_fft N0 frame = inr spectrum)
    [[0; 0]; [0; 0]]%float
    [[(0, 0); (0, 0)]; [(0, 0); (0, 0)]]%float /\
  @calculate_lsfm L0 N0 [0; 0; 0]%float 2 1 world0 =
    (World [] [Call_frame [0; 0; 0]%float 2 1], inr 1%float).
Proof.
  assert (Forall2 (fun frame spectrum => @fft_fft N0 frame = inr spectrum)
            [[0; 0]; [0; 0]]%float
            [[(0, 0); (0, 0)]; [(0, 0); (0, 0)]]%float) as Hfft
    by (repeat constructor).
  split; [ reflexivity | split; [ exact Hfft | ] ].
  exact (proj1 (proj1 (@calculate_lsfm_mean_flatness L0 N0 [0; 0; 0]%float
                         2 1 world0) _ _ eq_refl Hfft)).
Defined.

(** C4: on the one-sample buffer [1.0] at 16 kHz, whatever the MFCC
    transform answers, [classify_audio] returns "None Noise", which is none
    of the specification's three labels. *)
Lemma spec_labels_counterexample :
  (forall core,
     snd (@classify_audio (LibrosaModel.librosa core) N0
            [1%float] 16000 2048 512 world0) = inr "None Noise"%string) /\
  ~ In "None Noise"%string spec_labels.
Proof.
  split.
  - intro core.
    destruct (@calculate_mfcc_returns (LibrosaModel.librosa core)
                [1%float] 16000 13 ltac:(lia)) as [mfcc Hm].
    destruct (@classify_audio_run (LibrosaModel.librosa core) N0
                [1%float] 16000 2048 512 1%float mfcc 1%float 0%float world0)
      as [w' Hrun]; try reflexivity; [ exact Hm | ].
    rewrite Hrun; reflexivity.
  - unfold spec_labels; simpl; intuition discriminate.
Qed.

(** C4 (amended), run on the one-sample buffer [1.0]. *)
Lemma classify_audio_returns_code_label_witness :
  exists w' label,
    @classify_audio L0 N0 [1%float] 16000 2048 512 world0 = (w', inr label) /\
    (label = "Noise" \/ label = "Semi-Noise" \/ label = "None Noise")%string.
Proof.
  apply (@classify_audio_returns_code_label L0 N0 [1%float] 16000 2048 512
           world0); discriminate.
Defined.

(** C5: asked for -1 coefficients on a buffer that librosa rejects,
    [calculate_mfcc] raises from its handler: [np.zeros(-1)] is a
    ValueError.  (The buffer holds NaN, so the validity check fails before
    any transform runs.)  Nor is a non-negative [n_mfcc] enough: asked for
    2^63 coefficients, [np.zeros] raises as well. *)
Lemma calculate_mfcc_counterexample :
  snd (@calculate_mfcc L0 [nan] 16000 (-1) world0) =
    inl (ValueError "negative dimensions are not allowed") /\
  snd (@calculate_mfcc L0 [nan] 16000 (2 ^ 63) world0) =
    inl (ValueError "Maximum allowed dimension exceeded").
Proof. split; reflexivity. Qed.

(** C5 (amended), run on the same buffer with the default 13
    coefficients. *)
Lemma feature_computations_never_raise_witness :
  Np.zeros 13 = inr (repeat 0%float 13) /\
  (exists w' mfcc,
     @calculate_mfcc L0 [nan] 16000 13 world0 = (w', inr mfcc) /\
     forall e, @feature_mfcc L0 [nan] 16000 13 = inl e ->
               mfcc = repeat 0%float 13) /\
  (exists w' lsfm,
     @calculate_lsfm L0 N0 [nan] 2048 512 world0 = (w', inr lsfm) /\
     (forall e, @util_frame L0 [nan] 2048 512 = inl e -> lsfm = 1%float) /\
     (forall frames e,
        @util_frame L0 [nan] 2048 512 = inr frames ->
        @lsfm_loop N0 frames [] = inl e -> lsfm = 1%float)) /\
  (exists w' zcr,
     @calculate_zcr L0 [nan] 2048 512 world0 = (w', inr zcr) /\
     forall e, @feature_zero_crossing_rate L0 [nan] 2048 512 = inl e ->
               zcr = 0%float).
Proof.
  pose proof (@feature_computations_never_raise L0 N0 [nan] 16000 13 2048 512
                world0) as (_ & _ & Hmfcc & Hlsfm & Hzcr).
  split; [ reflexivity | ].
  split; [ exact (proj2 (Hmfcc _ eq_refl)) | ].
  split; [ exact Hlsfm | exact Hzcr ].
Defined.



(** C8: no call of [classify_audio] behaves as the configurable
    classifier asked for 20 coefficients: on the one-sample buffer [1.0]
    the program asks librosa for 13 whatever the framing arguments. *)
Lemma configuration_counterexample :
  ~ exists frame_length hop_length,
      forall (L : Librosa) (N : Numerics) audio sr w,
        classify_audio audio sr frame_length hop_length w =
        classify_configured config_20_coefficients audio sr w.
Proof.
  intros (frame_length & hop_length & H).
  specialize (H L0 N0 [1%float] 16000 world0).
  apply (f_equal (fun r => calls (fst r))) in H.
  change (@classify_audio L0 N0 [1%float] 16000 frame_length hop_length
            world0)
    with (@classify_configured L0 N0
            (interface_config frame_length hop_length)
            [1%float] 16000 world0) in H.
  rewrite !(@classify_configured_calls L0 N0 _ [1%float] 16000 1%float
              world0) in H
    by (reflexivity || (simpl; lia)).
  simpl in H; discriminate.
Qed.

(** C8 (amended), run on the one-sample buffer [1.0] with frames of 1024
    samples every 256. *)
Lemma classify_audio_configuration_witness :
  @classify_audio L0 N0 [1%float] 16000 1024 256 world0 =
    @classify_configured L0 N0 (interface_config 1024 256)
      [1%float] 16000 world0 /\
  calls (fst (@classify_audio L0 N0 [1%float] 16000 1024 256 world0)) =
    [Call_mfcc [1%float] 16000 13;
     Call_frame [1%float] 1024 256;
     Call_zcr [1%float] 1024 256].
Proof.
  apply (@classify_audio_configuration L0 N0 [1%float] 16000 1024 256
           1%float world0); reflexivity.
Defined.

(** C9, run on a one-sample buffer holding NaN: the gate lets it through
    and all three library calls raise. *)
Lemma fallback_features_catch_all_witness :
  Np.mean (Np.abs (repeat 0%float 13)) = 0%float /\
  (0.3 <? 0)%float = false /\
  (0.1 <=? 0)%float = false /\
  ~ rule_noise 1 0 0 /\
  ~ rule_semi_noise 1 0 0 /\
  exists w',
    @classify_audio L0 N0 [nan] 16000 2048 512 world0 =
    (w', inr "None Noise"%string).
Proof.
  apply (@fallback_features_catch_all L0 N0 [nan] 16000 2048 512 nan world0);
    reflexivity.
Defined.

(** X2: with librosa's zero-crossing rate as modelled, [calculate_zcr]
    returns a value greater than or equal to 0 on every buffer whose size
    fits a machine index, whatever the framing parameters. *)
Theorem librosa_zcr_nonneg core audio frame_length hop_length w :
  (Z.of_nat (List.length audio) + frame_length < 2 ^ 63)%Z ->
  exists w' z,
    @calculate_zcr (LibrosaModel.librosa core) audio frame_length hop_length w
      = (w', inr z) /\
    (0 <=? z)%float = true.
Proof.
  intro Hsize.
  destruct (@zcr_run_nonneg (LibrosaModel.librosa core)
              audio frame_length hop_length w) as (w' & z & Hrun & Hz & _).
  - intros zcr H.
    now apply zero_crossing_rate_rates_ok with audio frame_length hop_length.
  - now exists w', z.
Qed.

(** X2, run on the alternating buffer [1, -1, 1, -1] with frames of four
    samples every two. *)
Lemma librosa_zcr_nonneg_witness :
  exists w' z,
    @calculate_zcr L0 [1; -1; 1; -1]%float 4 2 world0 = (w', inr z) /\
    (0 <=? z)%float = true.
Proof.
  apply (@librosa_zcr_nonneg LibrosaModel.no_core [1; -1; 1; -1]%float 4 2
           world0); simpl; lia.
Defined.

(** ** The order of binary64 values *)

Ltac compare_cases :=
  repeat match goal with
  | H : context [Pos.compare_cont Eq ?a ?b] |- _ =>
      change (Pos.compare_cont Eq a b) with (Pos.compare a b) in H
  | |- context [Pos.compare_cont Eq ?a ?b] =>
      change (Pos.compare_cont Eq a b) with (Pos.compare a b)
  end;
  repeat match goal with
  | H : context [Z.compare ?a ?b] |- _ => destruct (Z.compare_spec a b)
  | |- context [Z.compare ?a ?b] => destruct (Z.compare_spec a b)
  | H : context [Pos.compare ?a ?b] |- _ => destruct (Pos.compare_spec a b)
  | |- context [Pos.compare ?a ?b] => destruct (Pos.compare_spec a b)
  end;
  subst; cbn [CompOpp] in *; try discriminate; try reflexivity; try lia.

(** [SFleb] then [SFltb] is [SFltb]. *)
Lemma SFleb_ltb_trans (x y z : spec_float) :
  SFleb x y = true -> SFltb y z = true -> SFltb x z = true.
Proof.
  unfold SFleb, SFltb.
  destruct x as [sx | sx | | sx mx ex], y as [sy | sy | | sy my ey],
           z as [sz | sz | | sz mz ez];
    try destruct sx; try destruct sy; try destruct sz;
    cbn [SFcompare]; try discriminate; try reflexivity; intros H1 H2;
    compare_cases.
Qed.

Lemma SFltb_trans (x y z : spec_float) :
  SFltb x y = true -> SFltb y z = true -> SFltb x z = true.
Proof.
  unfold SFltb.
  destruct x as [sx | sx | | sx mx ex], y as [sy | sy | | sy my ey],
           z as [sz | sz | | sz mz ez];
    try destruct sx; try destruct sy; try destruct sz;
    cbn [SFcompare]; try discriminate; try reflexivity; intros H1 H2;
    compare_cases.
Qed.

(** Two values that are not NaN are comparable. *)
Lemma SFleb_total (x y : spec_float) :
  x <> S754_nan -> y <> S754_nan -> SFleb x y = false -> SFltb y x = true.
Proof.
  unfold SFleb, SFltb.
  destruct x as [sx | sx | | sx mx ex], y as [sy | sy | | sy my ey];
    try destruct sx; try destruct sy;
    cbn [SFcompare]; try discriminate; try reflexivity; try congruence;
    intros _ _ H; compare_cases.
Qed.

Lemma SFcompare_refl (x : spec_float) :
  x <> S754_nan -> SFcompare x x = Some Eq.
Proof.
  destruct x as [s | s | | s m e]; try destruct s; cbn [SFcompare];
    try reflexivity; try congruence; intros _;
    rewrite Z.compare_refl;
    change (Pos.compare_cont Eq m m) with (Pos.compare m m);
    now rewrite Pos.compare_refl.
Qed.

Lemma is_nan_spec (x : float) : is_nan x = true <-> Prim2SF x = S754_nan.
Proof.
  unfold is_nan; rewrite eqb_spec; unfold SFeqb.
  split.
  - intro H.
    destruct (Prim2SF x) as [s | s | | s m e] eqn:E; try reflexivity;
      rewrite SFcompare_refl in H by discriminate; discriminate.
  - intros ->; reflexivity.
Qed.

Lemma ltb_nan_l (x y : float) : is_nan x = true -> (x <? y)%float = false.
Proof.
  rewrite is_nan_spec, ltb_spec; intros ->; reflexivity.
Qed.

Lemma ltb_nan_r (x y : float) : is_nan y = true -> (x <? y)%float = false.
Proof.
  rewrite is_nan_spec, ltb_spec; intros ->; unfold SFltb.
  destruct (Prim2SF x) as [s | s | | s m e]; reflexivity.
Qed.

Lemma leb_nan_l (x y : float) : is_nan x = true -> (x <=? y)%float = false.
Proof.
  rewrite is_nan_spec, FloatAxioms.leb_spec; intros ->; reflexivity.
Qed.

Lemma leb_nan_r (x y : float) : is_nan y = true -> (x <=? y)%float = false.
Proof.
  rewrite is_nan_spec, FloatAxioms.leb_spec; intros ->; unfold SFleb.
  destruct (Prim2SF x) as [s | s | | s m e]; reflexivity.
Qed.

(** ** The silence gate, sample by sample *)

Section Gate.

Context {L : Librosa} {N : Numerics}.

Local Open Scope float_scope.

Lemma maximum_cases (a b : float) : Np.maximum a b = a \/ Np.maximum a b = b.
Proof. unfold Np.maximum; destruct (_ || _); auto. Qed.

(** The maximum of two values is below a bound exactly when both are. *)
Lemma maximum_ltb (a b c : float) :
  (Np.maximum a b <? c) = true <-> (a <? c) = true /\ (b <? c) = true.
Proof.
  split.
  - unfold Np.maximum.
    destruct (b <=? a) eqn:Hba; simpl.
    + intro Ha; split; [ assumption | ].
      rewrite ltb_spec in *; rewrite FloatAxioms.leb_spec in Hba.
      now apply SFleb_ltb_trans with (Prim2SF a).
    + destruct (is_nan a) eqn:Hnan.
      * intro Ha; rewrite ltb_nan_l in Ha by assumption; discriminate.
      * intro Hb; split; [ | assumption ].
        assert (is_nan b = false) as Hnb.
        { destruct (is_nan b) eqn:E; [ | reflexivity ].
          rewrite ltb_nan_l in Hb by assumption; discriminate. }
        rewrite ltb_spec in *; rewrite FloatAxioms.leb_spec in Hba.
        apply SFltb_trans with (Prim2SF b); [ | assumption ].
        apply SFleb_total; try assumption.
        -- intro E; apply is_nan_spec in E; congruence.
        -- intro E; apply is_nan_spec in E; congruence.
  - intros [Ha Hb]; destruct (maximum_cases a b) as [-> | ->]; assumption.
Qed.

Lemma fold_maximum_ltb (c : float) (xs : list float) : forall x,
  (fold_left Np.maximum xs x <? c) = true <->
  Forall (fun y => (y <? c) = true) (x :: xs).
Proof.
  induction xs as [ | y xs IH]; intro x; simpl.
  - split; [ intro H; repeat constructor; assumption | ].
    intro H; now inversion H.
  - rewrite IH; split; intro H.
    + inversion H as [ | ? ? Hm Hxs]; subst.
      apply maximum_ltb in Hm; destruct Hm as [Hx Hy].
      repeat constructor; assumption.
    + inversion H as [ | ? ? Hx Hrest]; subst.
      inversion Hrest as [ | ? ? Hy Hxs]; subst.
      constructor; [ | assumption ].
      apply maximum_ltb; now split.
Qed.

(** The peak of a non-empty buffer is below the threshold of its format
    exactly when every sample is quiet. *)
Lemma peak_quiet dt (audio : list float) (peak : float) :
  Np.max (Np.abs audio) = inr peak ->
  ((peak <? Typed.weak dt 1e-6) = true <-> Forall (Typed.quiet dt) audio).
Proof.
  destruct audio as [ | x xs]; [ discriminate | ].
  simpl; intro H; inversion H; subst peak; clear H.
  rewrite fold_maximum_ltb.
  exact (Forall_map PrimFloat.abs
           (fun y => (y <? Typed.weak dt 1e-6) = true) (x :: xs)).
Qed.

End Gate.

(** ** NaN and the threshold rules *)

Section NanFeatures.

Context {L : Librosa} {N : Numerics}.

Local Open Scope float_scope.

Lemma threshold_label_nan (lsfm zcr mfcc_energy : float) :
  is_nan lsfm || is_nan zcr || is_nan mfcc_energy = true ->
  threshold_label lsfm zcr mfcc_energy = "None Noise"%string.
Proof.
  intro H; unfold threshold_label.
  apply orb_true_iff in H; destruct H as [H | H];
    [ apply orb_true_iff in H; destruct H as [H | H] | ].
  - rewrite (ltb_nan_r 0.8 lsfm H), (leb_nan_r 0.3 lsfm H); reflexivity.
  - rewrite (ltb_nan_r 0.3 zcr H), (leb_nan_r 0.1 zcr H).
    now rewrite !andb_false_r.
  - rewrite (ltb_nan_l mfcc_energy 50 H), (leb_nan_r 50 mfcc_energy H).
    now rewrite !andb_false_r.
Qed.

(** A flatness that is not NaN is not negative. *)
Lemma spectral_flatness_nonneg (magnitude : list float) :
  is_nan (spectral_flatness magnitude) = false ->
  (0 <=? spectral_flatness magnitude) = true.
Proof.
  intro Hnan.
  destruct (spectral_flatness_unit magnitude) as [H | [H _]];
    [ congruence | assumption ].
Qed.

End NanFeatures.

(** ** The batch runner, run *)

Lemma bextend_nil (w : batch_world) : bextend w [] [] = w.
Proof. destruct w; unfold bextend; simpl; now rewrite !app_nil_r. Qed.

Lemma bextend_bextend (w : batch_world) o1 c1 o2 c2 :
  bextend (bextend w o1 c1) o2 c2 = bextend w (o1 ++ o2) (c1 ++ c2).
Proof. unfold bextend; simpl; now rewrite !app_assoc. Qed.

Lemma filter_map_none {A C} (f : C -> bool) (g : A -> C) (l : list A) :
  (forall a, f (g a) = false) -> filter f (map g l) = [].
Proof.
  intro H; induction l as [ | a l IH]; simpl; [ reflexivity | ].
  now rewrite H.
Qed.

Lemma concat_map_select {A C} (p : A -> bool) (g : A -> C) (l : list A) :
  List.concat (map (fun a => if p a then [g a] else []) l) =
  map g (filter p l).
Proof.
  induction l as [ | a l IH]; simpl; [ reflexivity | ].
  destruct (p a); simpl; now rewrite IH.
Qed.

Section BatchRuns.

Context {L : Librosa} {N : Numerics} {F : FileSystem} {D : Loader}.

(** One entry of the folder: the runner appends the entry's report and
    goes on. *)
Lemma process_file_run (folder_path filename : string) (w : batch_world) :
  process_file folder_path filename w =
  (bextend w (fst (file_report folder_path filename))
             (snd (file_report folder_path filename)), inr tt).
Proof.
  unfold process_file, file_report, file_outcome, value.
  destruct (is_supported filename); [ | reflexivity ].
  cbv zeta; unfold bbind at 1, bprint at 1, btry, bbind at 1, bcall.
  destruct (librosa_load (path_join folder_path filename))
    as [e | [audio sr]]; simpl.
  - unfold bprint; now rewrite !bextend_bextend.
  - unfold bbind, run_core.
    destruct (classify_audio audio sr 2048 512 world0) as [w' [e | label]];
      simpl; unfold bprint; rewrite !bextend_bextend; simpl;
      now rewrite ?app_nil_r.
Qed.

Lemma process_files_run (folder_path : string) (filenames : list string) :
  forall w,
    process_files folder_path filenames w =
    (bextend w
       (List.concat (map (fun n => fst (file_report folder_path n)) filenames))
       (List.concat (map (fun n => snd (file_report folder_path n)) filenames)),
     inr tt).
Proof.
  induction filenames as [ | n rest IH]; intro w; simpl.
  - unfold bret; now rewrite bextend_nil.
  - unfold bbind; rewrite process_file_run, IH, bextend_bextend.
    reflexivity.
Qed.

Lemma process_audio_folder_run (folder_path : string) filenames w :
  path_exists folder_path = true ->
  listdir folder_path = inr filenames ->
  process_audio_folder folder_path w =
  (bextend w
     (List.concat (map (fun n => fst (file_report folder_path n)) filenames))
     (Os_exists folder_path :: Os_listdir folder_path ::
      List.concat (map (fun n => snd (file_report folder_path n)) filenames)),
   inr tt).
Proof.
  intros Hex Hls.
  unfold process_audio_folder, bbind at 1, bcall at 1; rewrite Hex; simpl.
  unfold bbind, bcall; rewrite Hls, process_files_run, !bextend_bextend.
  reflexivity.
Qed.

Lemma file_report_headers folder_path n :
  filter is_header (fst (file_report folder_path n)) = [header n].
Proof.
  unfold file_report, header, file_outcome.
  destruct (is_supported n); [ | reflexivity ].
  cbv zeta.
  destruct (librosa_load (path_join folder_path n)) as [e | [audio sr]];
    [ reflexivity | ].
  simpl; rewrite filter_app, filter_map_none by reflexivity.
  destruct (value (classify_audio audio sr 2048 512)); reflexivity.
Qed.

Lemma file_report_outcomes folder_path n :
  filter is_outcome (fst (file_report folder_path n)) =
  if is_supported n then [file_outcome folder_path n] else [].
Proof.
  unfold file_report, file_outcome.
  destruct (is_supported n); [ | reflexivity ].
  cbv zeta.
  destruct (librosa_load (path_join folder_path n)) as [e | [audio sr]];
    [ reflexivity | ].
  simpl; rewrite filter_app, filter_map_none by reflexivity.
  destruct (value (classify_audio audio sr 2048 512)); reflexivity.
Qed.

Lemma file_report_loads folder_path n :
  filter is_load (snd (file_report folder_path n)) =
  if is_supported n then [Load (path_join folder_path n)] else [].
Proof.
  unfold file_report.
  destruct (is_supported n); [ | reflexivity ].
  cbv zeta.
  destruct (librosa_load (path_join folder_path n)) as [e | [audio sr]];
    [ reflexivity | ].
  simpl; now rewrite filter_map_none.
Qed.

(** A label that [classify_audio] returns is one the program spells. *)
Lemma classify_audio_value_label audio sr frame_length hop_length label :
  value (classify_audio audio sr frame_length hop_length) = inr label ->
  audio <> [] /\ In label code_labels.
Proof.
  unfold value; intro H.
  destruct audio as [ | x xs]; [ discriminate | ].
  split; [ discriminate | ].
  destruct (classify_audio_label (x :: xs) sr frame_length hop_length world0)
    as (w' & label' & Hrun & Hin); [ discriminate | ].
  rewrite Hrun in H; simpl in H; congruence.
Qed.

End BatchRuns.

(** ** File names *)

Lemma lower_length (s : string) : String.length (lower s) = String.length s.
Proof. induction s as [ | c s IH]; simpl; congruence. Qed.

Lemma lower_append (a b : string) :
  lower (a ++ b) = (lower a ++ lower b)%string.
Proof. induction a as [ | c a IH]; simpl; congruence. Qed.

Lemma lower_drop (s : string) : forall k, lower (drop k s) = drop k (lower s).
Proof.
  induction s as [ | c s IH]; intros [ | k]; simpl; try reflexivity.
  apply IH.
Qed.

Lemma take_drop (s : string) : forall k, s = (take k s ++ drop k s)%string.
Proof.
  induction s as [ | c s IH]; intros [ | k]; simpl; try reflexivity.
  now rewrite <- IH.
Qed.

Lemma drop_append (a b : string) : drop (String.length a) (a ++ b) = b.
Proof. induction a as [ | c a IH]; simpl; [ now destruct b | assumption ]. Qed.

Lemma append_length (a b : string) :
  String.length (a ++ b) = (String.length a + String.length b)%nat.
Proof. induction a as [ | c a IH]; simpl; congruence. Qed.

(** [s.endswith(suffix)] holds exactly when [s] is some stem followed by
    [suffix]. *)
Lemma endswith_iff (s suffix : string) :
  endswith s suffix = true <-> exists stem, s = (stem ++ suffix)%string.
Proof.
  unfold endswith; rewrite andb_true_iff, Nat.leb_le, String.eqb_eq.
  split.
  - intros [_ H].
    exists (take (String.length s - String.length suffix) s).
    pose proof (take_drop s (String.length s - String.length suffix)) as E.
    now rewrite H in E.
  - intros [stem ->].
    rewrite append_length.
    replace (String.length stem + String.length suffix
             - String.length suffix)%nat with (String.length stem) by lia.
    split; [ lia | apply drop_append ].
Qed.

(** * Further results *)

Section BatchResults.

Context {L : Librosa} {N : Numerics} {F : FileSystem} {D : Loader}.

(** X3: [process_audio_folder] propagates an exception exactly when the
    folder exists and listing it raises; what goes wrong with one file
    (decoding, classification) never escapes.  When the folder does not
    exist it writes the one message and neither lists nor loads
    anything. *)
Theorem process_audio_folder_raises_iff (folder_path : string) w :
  (forall e,
     snd (process_audio_folder folder_path w) = inl e <->
     path_exists folder_path = true /\ listdir folder_path = inl e) /\
  (path_exists folder_path = false ->
   process_audio_folder folder_path w =
   (bextend w [Missing_folder folder_path] [Os_exists folder_path], inr tt)).
Proof.
  split.
  - intro e.
    destruct (path_exists folder_path) eqn:Hex.
    + destruct (listdir folder_path) as [e' | filenames] eqn:Hls.
      * unfold process_audio_folder, bbind, bcall; rewrite Hex, Hls; simpl.
        split; [ intro H; split; congruence | intros [_ H]; congruence ].
      * rewrite (process_audio_folder_run folder_path filenames w Hex Hls).
        simpl; split; [ discriminate | intros [_ H]; discriminate ].
    + unfold process_audio_folder, bbind, bcall, bprint; rewrite Hex; simpl.
      split; [ discriminate | intros [H _]; discriminate ].
  - intro Hex.
    unfold process_audio_folder, bbind, bcall, bprint; rewrite Hex; simpl.
    now rewrite bextend_bextend.
Qed.

(** X4: every entry of the folder is reported exactly once, in listing
    order: a supported file by its "processing" line, any other entry by
    its "skipped" line. *)
Theorem process_audio_folder_reports_every_entry
  (folder_path : string) (filenames : list string) w :
  path_exists folder_path = true ->
  listdir folder_path = inr filenames ->
  exists out cs,
    process_audio_folder folder_path w = (bextend w out cs, inr tt) /\
    filter is_header out = map header filenames.
Proof.
  intros Hex Hls.
  eexists _, _; split;
    [ apply (process_audio_folder_run folder_path filenames w Hex Hls) | ].
  clear Hex Hls.
  induction filenames as [ | n rest IH]; simpl; [ reflexivity | ].
  now rewrite filter_app, file_report_headers, IH.
Qed.

(** X5: the files handed to the decoder are exactly the supported entries,
    each under its joined path, in listing order; an unsupported entry is
    never loaded. *)
Theorem process_audio_folder_loads_supported_only
  (folder_path : string) (filenames : list string) w :
  path_exists folder_path = true ->
  listdir folder_path = inr filenames ->
  exists out cs,
    process_audio_folder folder_path w = (bextend w out cs, inr tt) /\
    filter is_load cs =
    map (fun n => Load (path_join folder_path n))
        (filter is_supported filenames).
Proof.
  intros Hex Hls.
  eexists _, _; split;
    [ apply (process_audio_folder_run folder_path filenames w Hex Hls) | ].
  simpl filter.
  rewrite <- concat_filter_map, map_map.
  rewrite <- (concat_map_select is_supported
                (fun n => Load (path_join folder_path n))).
  f_equal; apply map_ext; intro n; apply file_report_loads.
Qed.

(** X6: every supported entry gets exactly one outcome line, in listing
    order, either a label or an error; every label written is one of
    "Noise", "Semi-Noise", "None Noise". *)
Theorem process_audio_folder_outcomes
  (folder_path : string) (filenames : list string) w :
  path_exists folder_path = true ->
  listdir folder_path = inr filenames ->
  exists out cs,
    process_audio_folder folder_path w = (bextend w out cs, inr tt) /\
    filter is_outcome out =
      map (file_outcome folder_path) (filter is_supported filenames) /\
    (forall label, In (Classified label) out -> In label code_labels).
Proof.
  intros Hex Hls.
  eexists _, _; split;
    [ apply (process_audio_folder_run folder_path filenames w Hex Hls) | ].
  split.
  - rewrite <- concat_filter_map, map_map.
    rewrite <- (concat_map_select is_supported (file_outcome folder_path)).
    f_equal; apply map_ext; intro n; apply file_report_outcomes.
  - intros label Hin.
    apply in_concat in Hin; destruct Hin as (report & Hrep & Hin).
    apply in_map_iff in Hrep; destruct Hrep as (n & <- & _).
    unfold file_report, file_outcome in Hin.
    destruct (is_supported n);
      [ | simpl in Hin; intuition discriminate ].
    cbv zeta in Hin.
    destruct (librosa_load (path_join folder_path n)) as [e | [audio sr]];
      [ simpl in Hin; intuition discriminate | ].
    simpl in Hin; destruct Hin as [Hin | Hin]; [ discriminate | ].
    apply in_app_or in Hin; destruct Hin as [Hin | Hin].
    + apply in_map_iff in Hin; destruct Hin as (l & Hl & _); discriminate.
    + destruct (value (classify_audio audio sr 2048 512)) as [e | label']
        eqn:Hv; simpl in Hin; destruct Hin as [Hin | []];
        [ discriminate | ].
      inversion Hin; subst label'.
      now apply classify_audio_value_label in Hv.
Qed.

(** X7: what becomes of one supported file.  If the decoder raises, or if
    it answers an empty buffer (on which the max reduction of
    [classify_audio] raises), the error is written and no label is, with
    no call into librosa; if it answers a non-empty buffer, the file is
    classified with the native rate and the default framing 2048/512 and
    its label, one of the three, is written. *)
Theorem process_file_outcome (folder_path filename : string) w :
  is_supported filename = true ->
  let file_path := path_join folder_path filename in
  (forall e,
     librosa_load file_path = inl e ->
     process_file folder_path filename w =
     (bextend w [Processing filename; File_error filename e]
                [Load file_path], inr tt)) /\
  (forall sr,
     librosa_load file_path = inr ([], sr) ->
     process_file folder_path filename w =
     (bextend w
        [Processing filename;
         File_error filename
           (ValueError
              "zero-size array to reduction operation maximum which has no identity")]
        [Load file_path], inr tt)) /\
  (forall audio sr,
     librosa_load file_path = inr (audio, sr) ->
     audio <> [] ->
     exists core_out core_calls label,
       (forall w0, classify_audio audio sr 2048 512 w0 =
                   (extend w0 core_out core_calls, inr label)) /\
       In label code_labels /\
       process_file folder_path filename w =
       (bextend w
          (Processing filename :: map Core core_out ++ [Classified label])
          (Load file_path :: map Lib core_calls), inr tt)).
Proof.
  intros Hsup file_path; subst file_path.
  rewrite process_file_run; unfold file_report, file_outcome, value.
  rewrite Hsup; cbv zeta.
  split; [ | split ].
  - intros e ->; reflexivity.
  - intros sr ->; reflexivity.
  - intros audio sr -> Hne.
    destruct (classify_audio_steady audio sr 2048 512)
      as (out & cs & r & Hrun).
    destruct (classify_audio_label audio sr 2048 512 world0 Hne)
      as (w' & label & Hrun' & Hin).
    rewrite Hrun in Hrun'; inversion Hrun'; subst r.
    exists out, cs, label; split; [ exact Hrun | split; [ exact Hin | ] ].
    rewrite Hrun; reflexivity.
Qed.

End BatchResults.

(** X8: a file is processed exactly when its name is some stem followed
    by an extension that reads ".wav", ".mp3" or ".flac" once its ASCII
    letters are lowered; the stem may be empty and may itself hold
    dots. *)
Theorem is_supported_iff_extension (filename : string) :
  is_supported filename = true <->
  exists stem ext,
    filename = (stem ++ ext)%string /\ In (lower ext) supported_formats.
Proof.
  unfold is_supported; rewrite existsb_exists; split.
  - intros (suffix & Hin & Hend).
    unfold endswith in Hend; apply andb_true_iff in Hend.
    destruct Hend as [_ Hend]; apply String.eqb_eq in Hend.
    set (k := (String.length (lower filename) - String.length suffix)%nat)
      in Hend.
    exists (take k filename), (drop k filename); split.
    + apply take_drop.
    + now rewrite lower_drop, Hend.
  - intros (stem & ext & -> & Hin).
    exists (lower ext); split; [ exact Hin | ].
    apply endswith_iff; exists (lower stem); apply lower_append.
Qed.

Section CoreResults.

Context {L : Librosa} {N : Numerics}.

Local Open Scope float_scope.

(** X9: on a non-empty buffer of format [dt], [classify_audio] takes the
    silence gate (writes the warning, returns Noise and calls no library
    routine) exactly when every sample has a magnitude below 1e-6 taken in
    that format; one loud or NaN sample is enough for the features to be
    computed.  On a float32 buffer a sample of magnitude 1e-6 rounded to
    float32, which is below 1e-6, is loud. *)
Theorem silence_gate_iff_all_quiet dt audio sr frame_length hop_length w :
  audio <> [] ->
  (Forall (Typed.quiet dt) audio <->
   Typed.classify_audio dt audio sr frame_length hop_length w =
   (World (stdout w ++ [Warn_silent]) (calls w), inr "Noise"%string)).
Proof.
  intro Hne.
  destruct (max_nonempty audio Hne) as [peak Hmax].
  rewrite <- (peak_quiet dt audio peak Hmax).
  destruct (peak <? Typed.weak dt 1e-6) eqn:Hgate.
  - split; [ intros _ | reflexivity ].
    rewrite (typed_classify_audio_gate dt audio sr frame_length hop_length
               peak w Hmax Hgate).
    unfold extend; now rewrite app_nil_r.
  - split; [ discriminate | intro Hrun; exfalso ].
    pose proof (typed_classify_audio_calls dt audio sr frame_length
                  hop_length peak w Hmax Hgate) as Hcalls.
    rewrite Hrun in Hcalls; simpl in Hcalls.
    apply (f_equal (@List.length _)) in Hcalls.
    rewrite length_app in Hcalls; simpl in Hcalls; lia.
Qed.

(** X10: if any of LSFM, ZCR and mfcc_energy is NaN, the threshold rules
    return the catch-all label "None Noise": every comparison with NaN is
    false, so neither rule 1 nor rule 2 can hold. *)
Theorem nan_feature_gets_catch_all (lsfm zcr mfcc_energy : float) :
  is_nan lsfm || is_nan zcr || is_nan mfcc_energy = true ->
  threshold_label lsfm zcr mfcc_energy = "None Noise"%string /\
  ~ rule_noise lsfm zcr mfcc_energy /\
  ~ rule_semi_noise lsfm zcr mfcc_energy.
Proof.
  intro H; pose proof (threshold_label_nan lsfm zcr mfcc_energy H) as Hl.
  split; [ exact Hl | ].
  pose proof (threshold_label_cascade lsfm zcr mfcc_energy) as Hc.
  rewrite Hl in Hc; inversion Hc; now split.
Qed.

(** X11: when the buffer frames, every frame transforms and no frame's
    flatness is NaN, [calculate_lsfm] returns a value that is greater than
    or equal to 0 (so not NaN either). *)
Theorem calculate_lsfm_nonneg
  audio frame_length hop_length frames spectra w :
  util_frame audio frame_length hop_length = inr frames ->
  Forall2 (fun frame spectrum => fft_fft frame = inr spectrum) frames spectra ->
  (Z.of_nat (List.length frames) < 2 ^ 63)%Z ->
  Forall (fun X => is_nan (spectral_flatness (map abs_complex X)) = false)
    spectra ->
  exists w' lsfm,
    calculate_lsfm audio frame_length hop_length w = (w', inr lsfm) /\
    (0 <=? lsfm) = true.
Proof.
  intros Hframe Hfft Hlen Hnan.
  rewrite calculate_lsfm_run; cbv zeta.
  rewrite Hframe, (lsfm_loop_spec frames spectra [] Hfft); simpl.
  destruct (map _ spectra) as [ | x l] eqn:Hmap;
    [ eexists _, _; split; reflexivity | ].
  eexists _, _; split; [ reflexivity | ].
  rewrite <- Hmap; apply mean_nonneg.
  - rewrite Hmap; discriminate.
  - rewrite length_map, <- (Forall2_length Hfft); assumption.
  - apply Forall_forall; intros f Hin.
    apply in_map_iff in Hin; destruct Hin as (X & <- & HX).
    rewrite Forall_forall in Hnan.
    apply spectral_flatness_nonneg, Hnan, HX.
Qed.

End CoreResults.

(** ** Closed runs of the batch runner *)

(** X4, run on the folder ["audios"]. *)
Lemma process_audio_folder_reports_every_entry_witness :
  exists out cs,
    @process_audio_folder L0 N0 FS0 D0 "audios" batch_world0 =
      (bextend batch_world0 out cs, inr tt) /\
    filter is_header out =
      [Processing "quiet.wav"; Skipped "notes.txt";
       Processing "BROKEN.MP3"; Processing "empty.flac"].
Proof.
  apply (@process_audio_folder_reports_every_entry L0 N0 FS0 D0 "audios"
           ["quiet.wav"; "notes.txt"; "BROKEN.MP3"; "empty.flac"]
           batch_world0); reflexivity.
Defined.

(** X5, run on the folder ["audios"]. *)
Lemma process_audio_folder_loads_supported_only_witness :
  exists out cs,
    @process_audio_folder L0 N0 FS0 D0 "audios" batch_world0 =
      (bextend batch_world0 out cs, inr tt) /\
    filter is_load cs =
      [Load "audios/quiet.wav"; Load "audios/BROKEN.MP3";
       Load "audios/empty.flac"].
Proof.
  apply (@process_audio_folder_loads_supported_only L0 N0 FS0 D0 "audios"
           ["quiet.wav"; "notes.txt"; "BROKEN.MP3"; "empty.flac"]
           batch_world0); reflexivity.
Defined.

(** X6, run on the folder ["audios"]. *)
Lemma process_audio_folder_outcomes_witness :
  exists out cs,
    @process_audio_folder L0 N0 FS0 D0 "audios" batch_world0 =
      (bextend batch_world0 out cs, inr tt) /\
    filter is_outcome out =
      [Classified "Noise";
       File_error "BROKEN.MP3" (Exception "NoBackendError" "audios/BROKEN.MP3");
       File_error "empty.flac"
         (ValueError
            "zero-size array to reduction operation maximum which has no identity")] /\
    (forall label, In (Classified label) out -> In label code_labels).
Proof.
  apply (@process_audio_folder_outcomes L0 N0 FS0 D0 "audios"
           ["quiet.wav"; "notes.txt"; "BROKEN.MP3"; "empty.flac"]
           batch_world0); reflexivity.
Defined.

(** X7, run on the file that decodes to no sample. *)
Lemma process_file_outcome_witness :
  is_supported "empty.flac" = true /\
  @librosa_load D0 (@path_join FS0 "audios" "empty.flac") = inr ([], 44100) /\
  @process_file L0 N0 FS0 D0 "audios" "empty.flac" batch_world0 =
  (BatchWorld
     [Processing "empty.flac";
      File_error "empty.flac"
        (ValueError
           "zero-size array to reduction operation maximum which has no identity")]
     [Load "audios/empty.flac"], inr tt).
Proof.
  split; [ reflexivity | split; [ reflexivity | ] ].
  exact (proj1 (proj2 (@process_file_outcome L0 N0 FS0 D0 "audios"
                         "empty.flac" batch_world0 eq_refl))
           44100 eq_refl).
Defined.

(** X9, run on two zero samples, as float32. *)
Lemma silence_gate_iff_all_quiet_witness :
  Forall (Typed.quiet Float32) [0; 0]%float <->
  @Typed.classify_audio L0 N0 Float32 [0; 0]%float 16000 2048 512 world0 =
  (World [Warn_silent] [], inr "Noise"%string).
Proof.
  apply (@silence_gate_iff_all_quiet L0 N0 Float32 [0; 0]%float 16000 2048
           512 world0); discriminate.
Defined.

(** X10, with a NaN flatness. *)
Lemma nan_feature_gets_catch_all_witness :
  threshold_label nan 0.5 10 = "None Noise"%string /\
  ~ rule_noise nan 0.5 10 /\
  ~ rule_semi_noise nan 0.5 10.
Proof.
  apply (nan_feature_gets_catch_all nan 0.5 10); reflexivity.
Defined.

(** X11, run on three zero samples framed two by two. *)
Lemma calculate_lsfm_nonneg_witness :
  exists w' lsfm,
    @calculate_lsfm L0 N0 [0; 0; 0]%float 2 1 world0 = (w', inr lsfm) /\
    (0 <=? lsfm)%float = true.
Proof.
  apply (@calculate_lsfm_nonneg L0 N0 [0; 0; 0]%float 2 1
           [[0; 0]; [0; 0]]%float
           [[(0, 0); (0, 0)]; [(0, 0); (0, 0)]]%float world0);
    [ reflexivity | repeat constructor | simpl; lia | repeat constructor ].
Defined.
